(** * xradio: the casatools -> python-casacore bridge

    A shallow embedding of [xradio/_utils/_casacore/casacore_from_casatools.py]
    and the properties of its convention-translation layer.

    The Python objects that cross the bridge are embedded as the inductive
    type [value]; NumPy arrays as strided views ([np.ndarray]) whose
    contiguity flags are computed from shape and strides the way NumPy does
    it; the storage engine (casatools) as a record of operations over an
    abstract engine state, so that every statement about the facade holds for
    every engine. *)

From stdpp Require Import base option list strings pretty.
From Stdlib Require Import ZArith Lia Ascii.

Local Open Scope string_scope.
Local Open Scope list_scope.
Local Open Scope Z_scope.

(** ** NumPy arrays *)

Module np.

(** A strided view: [shape] and [strides] (in bytes) per axis, the size of
    one element in bytes, and the elements of the underlying buffer, the
    first of which sits at the array's data pointer. *)
Record ndarray := mk_ndarray {
  shape : list Z;
  strides : list Z;
  itemsize : Z;
  data : list Z
}.

Global Instance ndarray_eq_dec : EqDecision ndarray.
Proof. solve_decision. Defined.

(** The loop of NumPy's [_UpdateContiguousFlags]: walk the axes, skip those
    of extent 1, and require of every other axis that its stride is the
    running product [sd] of the extents already seen. *)
Fixpoint contiguous_from (sd : Z) (dims strs : list Z) : bool :=
  match dims, strs with
  | dim :: dims', st :: strs' =>
      if bool_decide (dim = 1) then contiguous_from sd dims' strs'
      else bool_decide (st = sd) && contiguous_from (sd * dim) dims' strs'
  | _, _ => true
  end.

(** An array with an axis of extent 0 is contiguous both ways by
    definition; otherwise the F flag walks the axes first to last, the C
    flag last to first. *)
Definition f_contiguous (a : ndarray) : bool :=
  bool_decide (0 ∈ shape a)
  || contiguous_from (itemsize a) (shape a) (strides a).

Definition c_contiguous (a : ndarray) : bool :=
  bool_decide (0 ∈ shape a)
  || contiguous_from (itemsize a) (reverse (shape a)) (reverse (strides a)).

(** [a.T]: a view on the same buffer with the axes in reverse order. *)
Definition T (a : ndarray) : ndarray :=
  {| shape := reverse (shape a);
     strides := reverse (strides a);
     itemsize := itemsize a;
     data := data a |}.

(** Byte offset of the element at a multi-index. *)
Definition offset_of (idx strs : list Z) : Z :=
  foldr Z.add 0 (zip_with Z.mul idx strs).

Definition in_bounds (idx dims : list Z) : bool :=
  forallb (λ p, bool_decide (0 ≤ p.1 < p.2)) (zip idx dims).

(** [a[idx]] for a full multi-index of non-negative positions; [None]
    stands for IndexError. *)
Definition item (a : ndarray) (idx : list Z) : option Z :=
  if bool_decide (length idx = length (shape a)
                  ∧ length (strides a) = length (shape a))
     && in_bounds idx (shape a)
     && bool_decide (0 ≤ offset_of idx (strides a))
  then data a !! Z.to_nat (offset_of idx (strides a) `div` itemsize a)
  else None.

End np.

(** ** Python values *)

#[local] Unset Elimination Schemes.

(** The values that travel through the bridge.  [VSlice] is a [slice] object
    with integer or absent bounds; [VObj] is an opaque engine object (a table
    handle, a SWIG object), named by a number. *)
Inductive value :=
| VNone
| VBool (b : bool)
| VInt (n : Z)
| VStr (s : string)
| VArr (a : np.ndarray)
| VList (l : list value)
| VTuple (l : list value)
| VDict (d : list (string * value))
| VSlice (start stop step : option Z)
| VObj (h : nat).

#[local] Set Elimination Schemes.

(** Induction on values, through the lists and dicts inside them. *)
Section value_ind.
Context (P : value → Prop).
Context (HNone : P VNone) (HBool : ∀ b, P (VBool b)) (HInt : ∀ n, P (VInt n))
  (HStr : ∀ s, P (VStr s)) (HArr : ∀ a, P (VArr a))
  (HList : ∀ l, Forall P l → P (VList l))
  (HTuple : ∀ l, Forall P l → P (VTuple l))
  (HDict : ∀ d, Forall (λ kv, P kv.2) d → P (VDict d))
  (HSlice : ∀ start stop step, P (VSlice start stop step))
  (HObj : ∀ h, P (VObj h)).

Fixpoint value_ind (v : value) : P v :=
  match v with
  | VNone => HNone
  | VBool b => HBool b
  | VInt n => HInt n
  | VStr s => HStr s
  | VArr a => HArr a
  | VList l =>
      HList l ((fix go (l : list value) : Forall P l :=
                  match l with
                  | [] => Forall_nil_2 P
                  | x :: l' => Forall_cons_2 P x l' (value_ind x) (go l')
                  end) l)
  | VTuple l =>
      HTuple l ((fix go (l : list value) : Forall P l :=
                   match l with
                   | [] => Forall_nil_2 P
                   | x :: l' => Forall_cons_2 P x l' (value_ind x) (go l')
                   end) l)
  | VDict d =>
      HDict d ((fix go (d : list (string * value))
                  : Forall (λ kv, P kv.2) d :=
                  match d with
                  | [] => Forall_nil_2 _
                  | kv :: d' =>
                      Forall_cons_2 (λ kv, P kv.2) kv d'
                        (value_ind kv.2) (go d')
                  end) d)
  | VSlice start stop step => HSlice start stop step
  | VObj h => HObj h
  end.

End value_ind.

(** A [dict] is kept as its items in insertion order; the keys of a dict are
    pairwise different. *)
Abbreviation dict := (list (string * value)).

(** ** The recursive convention normalizer *)

Fixpoint recursive_transpose (val : value) : value :=
  match val with
  | VArr a => if np.f_contiguous a then VArr (np.T a) else val
  | VList l => VList (map recursive_transpose l)
  | VDict d => VDict (map (λ '(key, v), (key, recursive_transpose v)) d)
  | _ => val
  end.

(** An array that a second pass of the normalizer turns back: contiguous
    both ways before and after the transpose, and changed by it.  Such are
    the arrays of two or more axes of which at most one has an extent other
    than 1, a 1 x 3 array for one, and the arrays without elements. *)
Definition turns_back (a : np.ndarray) : bool :=
  np.f_contiguous a && np.f_contiguous (np.T a)
  && negb (bool_decide (np.T a = a)).

(** No array inside the value is of that kind. *)
Fixpoint settled (val : value) : bool :=
  match val with
  | VArr a => negb (turns_back a)
  | VList l => forallb settled l
  | VDict d => forallb (λ kv, settled kv.2) d
  | _ => true
  end.

(** ** Exceptions, results and effects *)

(** A raised exception: the name of its class and its message. *)
Inductive exn := Exn (name msg : string).

Global Instance exn_eq_dec : EqDecision exn.
Proof. solve_decision. Defined.

Definition TypeError : exn := Exn "TypeError" "".
Definition KeyError (key : string) : exn := Exn "KeyError" key.
Definition IndexError : exn := Exn "IndexError" "".
Definition ValueError : exn := Exn "ValueError" "".
Definition FileNotFoundError (path : string) : exn :=
  Exn "FileNotFoundError" path.

(** The outcome of a pure computation: a raised exception or a value. *)
Definition result (A : Type) : Type := exn + A.

Definition raise {A} (e : exn) : result A := inl e.
Definition ok {A} (x : A) : result A := inr x.

Definition rbind {A B} (m : result A) (k : A → result B) : result B :=
  match m with
  | inl e => inl e
  | inr x => k x
  end.

Definition rmap {A B} (f : A → B) (m : result A) : result B :=
  rbind m (λ x, ok (f x)).

Declare Scope result_scope.
Delimit Scope result_scope with res.
Notation "'let?' x := m 'in' k" := (rbind m (λ x, k))
  (at level 10, x pattern, m at level 100, k at level 200,
   only parsing) : result_scope.

(** [for x in l: acc = body(acc, x)], stopping at the first exception. *)
Fixpoint rfold {A B} (body : B → A → result B) (acc : B) (l : list A)
  : result B :=
  match l with
  | [] => ok acc
  | x :: l' => rbind (body acc x) (λ acc', rfold body acc' l')
  end.

(** [[f(x) for x in l]], stopping at the first exception. *)
Fixpoint rmapM {A B} (f : A → result B) (l : list A) : result (list B) :=
  match l with
  | [] => ok []
  | x :: l' => rbind (f x) (λ y, rmap (cons y) (rmapM f l'))
  end.

(** The world an operation runs in: the directory trees that exist on the
    file system, and the state of the storage engine, of which nothing is
    known. *)
Record world (S : Type) := World {
  fs : list string;
  eng : S
}.
Arguments World {S} _ _.
Arguments fs {S} _.
Arguments eng {S} _.

(** An operation with effects: from a world to an outcome and a world.  An
    exception keeps the effects that happened before it was raised. *)
Definition M (S A : Type) : Type := world S → result A * world S.

Definition ret {S A} (x : A) : M S A := λ w, (ok x, w).
Definition throw {S A} (e : exn) : M S A := λ w, (raise e, w).
Definition lift {S A} (r : result A) : M S A := λ w, (r, w).

Definition bind {S A B} (m : M S A) (k : A → M S B) : M S B :=
  λ w, match m w with
       | (inl e, w') => (inl e, w')
       | (inr x, w') => k x w'
       end.

Declare Scope M_scope.
Delimit Scope M_scope with M.
Notation "'do' x <- m ; k" := (bind m (λ x, k))
  (at level 10, x pattern, m at level 100, k at level 200,
   only parsing) : M_scope.

(** [[f(x) for x in l]] with effects, in order. *)
Fixpoint mapM {S A B} (f : A → M S B) (l : list A) : M S (list B) :=
  match l with
  | [] => ret []
  | x :: l' => bind (f x) (λ y, bind (mapM f l') (λ ys, ret (y :: ys)))
  end.

(** ** Python built-ins *)

Module py.

(** [str(n)] for an [int] *)
Definition str_int (n : Z) : string := pretty n.

(** [l[i]] on a list: negative positions count from the end. *)
Definition index {A} (l : list A) (i : Z) : result A :=
  let n := Z.of_nat (length l) in
  let j := if bool_decide (i < 0) then i + n else i in
  if bool_decide (0 ≤ j < n)
  then match l !! Z.to_nat j with
       | Some x => ok x
       | None => raise IndexError
       end
  else raise IndexError.

(** [sep.join(parts)] *)
Fixpoint join (sep : string) (parts : list string) : string :=
  match parts with
  | [] => ""
  | [x] => x
  | x :: rest => x +:+ sep +:+ join sep rest
  end.

(** [str(l)] for a list of [int]: ["[10, 5]"]. *)
Definition str_int_list (l : list Z) : string :=
  "[" +:+ join ", " (map str_int l) +:+ "]".

(** [s.lower()], on the ASCII letters. *)
Definition lower_char (c : ascii) : ascii :=
  let n := Ascii.N_of_ascii c in
  if bool_decide (65 ≤ n ≤ 90)%N then Ascii.ascii_of_N (n + 32) else c.

Fixpoint lower (s : string) : string :=
  match s with
  | EmptyString => EmptyString
  | String c s' => String (lower_char c) (lower s')
  end.

(** [s.replace(old, new)] for a non-empty [old]: [skip] counts the
    characters of a match that are still to be dropped. *)
Fixpoint replace_from (skip : nat) (old new s : string) : string :=
  match s with
  | EmptyString => EmptyString
  | String c s' =>
      match skip with
      | Datatypes.S k => replace_from k old new s'
      | O => if String.prefix old s
             then new +:+ replace_from (String.length old - 1) old new s'
             else String c (replace_from O old new s')
      end
  end.

Definition replace (old new s : string) : string := replace_from 0 old new s.

(** [slice(start, stop, step).indices(length)] *)
Definition slice_indices (start stop step : option Z) (length : Z)
  : result (Z * Z * Z) :=
  let step' := default 1 step in
  if bool_decide (step' = 0) then raise ValueError
  else if bool_decide (length < 0) then raise ValueError
  else
    let lower := if bool_decide (step' < 0) then -1 else 0 in
    let upper := if bool_decide (step' < 0) then length - 1 else length in
    let clamp (bound : Z) :=
      if bool_decide (bound < 0)
      then Z.max (bound + length) lower
      else Z.min bound upper in
    let start' := match start with
                  | None => if bool_decide (step' < 0) then upper else lower
                  | Some b => clamp b
                  end in
    let stop' := match stop with
                 | None => if bool_decide (step' < 0) then lower else upper
                 | Some b => clamp b
                 end in
    ok (start', stop', step').

(** [list(range(start, stop, step))] for a non-zero [step]. *)
Definition range (start stop step : Z) : list Z :=
  let len :=
    if bool_decide (0 < step)
    then (if bool_decide (start < stop)
          then (stop - start + step - 1) `div` step else 0)
    else (if bool_decide (stop < start)
          then (start - stop - step - 1) `div` (- step) else 0) in
  map (λ i, start + i * step) (seqZ 0 len).

(** *** [ast.literal_eval] on list displays of integers

    The fragment of Python's literal syntax that shape strings use: a
    bracketed, comma-separated display of decimal integers, each with an
    optional sign, with blanks between the tokens and an optional trailing
    comma.  [None] says that the text is not in this fragment. *)

Inductive token := TLbr | TRbr | TComma | TMinus | TPlus | TNum (digits : string).

Definition is_digit (c : ascii) : bool :=
  bool_decide (48 ≤ Ascii.N_of_ascii c ≤ 57)%N.

Definition digit_value (c : ascii) : N := (Ascii.N_of_ascii c - 48)%N.

Definition is_blank (c : ascii) : bool :=
  bool_decide (c = " "%char) || bool_decide (Ascii.N_of_ascii c = 9%N).

Definition punct (c : ascii) : option token :=
  if bool_decide (c = "["%char) then Some TLbr
  else if bool_decide (c = "]"%char) then Some TRbr
  else if bool_decide (c = ","%char) then Some TComma
  else if bool_decide (c = "-"%char) then Some TMinus
  else if bool_decide (c = "+"%char) then Some TPlus
  else None.

(** Close the number whose digits have been read so far, if any. *)
Definition flush (cur : string) (ts : list token) : list token :=
  if bool_decide (cur = "") then ts else TNum cur :: ts.

Fixpoint lex (cur : string) (s : string) : option (list token) :=
  match s with
  | EmptyString => Some (flush cur [])
  | String c s' =>
      if is_digit c then lex (cur +:+ String c "") s'
      else if is_blank c then flush cur <$> lex "" s'
      else match punct c with
           | Some t => (λ ts, flush cur (t :: ts)) <$> lex "" s'
           | None => None
           end
  end.

(** The value of a decimal integer literal; a leading zero is allowed only
    when all digits are zero. *)
Fixpoint digits_value_from (v : N) (ds : string) : N :=
  match ds with
  | EmptyString => v
  | String c ds' => digits_value_from (10 * v + digit_value c) ds'
  end.

Fixpoint all_zero (ds : string) : bool :=
  match ds with
  | EmptyString => true
  | String c ds' => bool_decide (c = "0"%char) && all_zero ds'
  end.

Definition digits_value (ds : string) : option N :=
  match ds with
  | EmptyString => None
  | String c _ =>
      if bool_decide (c ≠ "0"%char) || all_zero ds
      then Some (digits_value_from 0 ds) else None
  end.

(** The elements of the display, from just after ["["] or [","]. *)
Fixpoint parse_elems (ts : list token) : option (list Z) :=
  match ts with
  | [TRbr] => Some []
  | TNum ds :: rest =>
      n ← digits_value ds;
      match rest with
      | [TRbr] => Some [Z.of_N n]
      | TComma :: rest' => cons (Z.of_N n) <$> parse_elems rest'
      | _ => None
      end
  | TMinus :: TNum ds :: rest =>
      n ← digits_value ds;
      match rest with
      | [TRbr] => Some [- Z.of_N n]
      | TComma :: rest' => cons (- Z.of_N n) <$> parse_elems rest'
      | _ => None
      end
  | TPlus :: TNum ds :: rest =>
      n ← digits_value ds;
      match rest with
      | [TRbr] => Some [Z.of_N n]
      | TComma :: rest' => cons (Z.of_N n) <$> parse_elems rest'
      | _ => None
      end
  | _ => None
  end.

Definition literal_eval (s : string) : option (list Z) :=
  ts ← lex "" s;
  match ts with
  | TLbr :: ts' => parse_elems ts'
  | _ => None
  end.

End py.

(** ** Dictionaries and attribute tables *)

Section alist.
Context {A : Type}.

(** [d.get(key)] *)
Fixpoint alist_get (key : string) (d : list (string * A)) : option A :=
  match d with
  | [] => None
  | (k, v) :: d' => if decide (k = key) then Some v else alist_get key d'
  end.

(** [d[key] = v]: an existing key keeps its place, a new one goes last. *)
Fixpoint alist_set (key : string) (v : A) (d : list (string * A))
  : list (string * A) :=
  match d with
  | [] => [(key, v)]
  | (k, v') :: d' =>
      if decide (k = key) then (k, v) :: d' else (k, v') :: alist_set key v d'
  end.

(** [d.pop(key, None)], the dict that is left. *)
Definition alist_pop (key : string) (d : list (string * A))
  : list (string * A) :=
  filter (λ kv, kv.1 ≠ key) d.

(** [d.update(d2)] *)
Definition alist_update (d d2 : list (string * A)) : list (string * A) :=
  fold_left (λ acc kv, alist_set kv.1 kv.2 acc) d2 d.

Definition alist_keys (d : list (string * A)) : list string := d.*1.

End alist.

(** ** Calls *)

(** The arguments of a call: positional ones and keyword ones. *)
Record args := Args {
  positional : list value;
  keywords : dict
}.

(** Binding the arguments of a call to the named parameters of a function
    that also takes [**kwargs]: positional arguments fill the parameters in
    order, a keyword that names a parameter fills it, any other keyword is
    collected.  A parameter filled twice, a keyword given twice, a missing
    parameter without default and too many positional arguments are
    TypeErrors.  The result is the value of every parameter, in order, and
    the collected keywords. *)
Fixpoint bind_keywords (names : list string) (bound kwargs kws : dict)
  : result (dict * dict) :=
  match kws with
  | [] => ok (bound, kwargs)
  | (k, v) :: kws' =>
      if bool_decide (k ∈ names)
      then (if bool_decide (k ∈ alist_keys bound) then raise TypeError
            else bind_keywords names (bound ++ [(k, v)]) kwargs kws')
      else (if bool_decide (k ∈ alist_keys kwargs) then raise TypeError
            else bind_keywords names bound (kwargs ++ [(k, v)]) kws')
  end.

Definition fill_defaults (params : list (string * option value)) (bound : dict)
  : result dict :=
  rmapM (λ p : string * option value,
           match alist_get p.1 bound, p.2 with
           | Some v, _ => ok (p.1, v)
           | None, Some v => ok (p.1, v)
           | None, None => raise TypeError
           end) params.

Definition bind_params (params : list (string * option value)) (a : args)
  : result (dict * dict) :=
  if bool_decide (length params < length (positional a))%nat
  then raise TypeError
  else
    rbind (bind_keywords params.*1 (zip params.*1 (positional a)) []
             (keywords a))
      (λ bk, rbind (fill_defaults params bk.1) (λ bound, ok (bound, bk.2))).

(** The value a bound parameter has. *)
Definition param (bound : dict) (name : string) : value :=
  default VNone (alist_get name bound).

(** [f(k1=v1, ..., **kwargs)]: a keyword that comes twice is a TypeError. *)
Definition call_keywords (explicit kwargs : dict) : result dict :=
  if bool_decide (Exists (λ k, k ∈ alist_keys explicit) (alist_keys kwargs))
  then raise TypeError
  else ok (explicit ++ kwargs).

(** ** The method interception layer *)

Section interception.
Context {S : Type}.

(** An object, seen from outside: the dispatch of [obj.name(args)]. *)
Definition obj : Type := string → args → M S value.

(** A function found in a class: it gets [self] and the arguments. *)
Definition func : Type := obj → args → M S value.

Inductive member :=
| MFunc (f : func)
| MAttr (v : value).

(** A class: its own attribute table, and those of the rest of its method
    resolution order. *)
Record class := Class {
  own : list (string * member);
  mro_tail : list (list (string * member))
}.

(** [getattr(cls, name)]: the first table of the resolution order that has
    the name. *)
Fixpoint lookup_mro (name : string) (tables : list (list (string * member)))
  : option member :=
  match tables with
  | [] => None
  | t :: tables' =>
      match alist_get name t with
      | Some m => Some m
      | None => lookup_mro name tables'
      end
  end.

Definition getattr (cls : class) (name : string) : option member :=
  lookup_mro name (own cls :: mro_tail cls).

(** [setattr(cls, name, m)] writes the class's own table. *)
Definition setattr (cls : class) (name : string) (m : member) : class :=
  {| own := alist_set name m (own cls); mro_tail := mro_tail cls |}.

(** [dir(cls)]: every name once.  (Python sorts them; each name is visited
    once, so the order has no bearing on what follows.) *)
Definition dir (cls : class) : list string :=
  remove_dups (concat (map alist_keys (own cls :: mro_tail cls))).

(** [inspect.getmembers(cls, predicate=inspect.isfunction)]: collected
    before the loop body runs. *)
Definition getmembers_isfunction (cls : class) : list (string * func) :=
  omap (λ name, match getattr cls name with
                | Some (MFunc f) => Some (name, f)
                | _ => None
                end) (dir cls).

(** What the wrapper does to one call: run it, then pass what it returns
    through [recursive_transpose]. *)
Definition wrapped (m : M S value) : M S value :=
  (do ret_ <- m;
   ret (recursive_transpose ret_))%M.

(** [method_wrapper(method)]: the call goes through with the arguments it
    was given. *)
Definition method_wrapper (method : func) : func :=
  λ self a, wrapped (method self a).

(** [wrap_class_methods(cls)] *)
Definition wrap_class_methods (cls : class) : class :=
  fold_left (λ c nm, setattr c nm.1 (MFunc (method_wrapper nm.2)))
            (getmembers_isfunction cls) cls.

(** [obj.name(args)] on an instance of [cls]; [depth] bounds the nesting of
    calls, as the interpreter's recursion limit does. *)
Fixpoint call (depth : nat) (cls : class) (name : string) (a : args)
  : M S value :=
  match depth with
  | O => throw (Exn "RecursionError" name)
  | Datatypes.S depth' =>
      match getattr cls name with
      | Some (MFunc f) => f (call depth' cls) a
      | Some (MAttr _) => throw TypeError
      | None => throw (Exn "AttributeError" name)
      end
  end.

End interception.

Arguments obj : clear implicits.
Arguments func : clear implicits.
Arguments member : clear implicits.
Arguments class : clear implicits.

(** ** The storage engine

    casatools is used as a black box.  Every operation gets the object it is
    called on and may raise, and may change the engine state and the file
    system in any way. *)

Module casatools.

Record table (S : Type) := {
  (** a new, uninitialised instance *)
  alloc : M S value;
  (** [casatools.table.__init__(self, ...)] *)
  init : value → args → M S value;
  name : value → M S string;
  isopened : value → string → M S bool;
  (** [copy(newtablename, deep, valuecopy)] *)
  copy : value → string → bool → bool → M S value;
  close : value → M S value;
  (** [self._swigobj.taql(command)] *)
  swig_taql : value → string → M S value;
  getcolshapestring : value → args → M S (list string);
  getcellslice : value → args → M S value
}.
Arguments alloc {S} _.
Arguments init {S} _.
Arguments name {S} _.
Arguments isopened {S} _.
Arguments copy {S} _.
Arguments close {S} _.
Arguments swig_taql {S} _.
Arguments getcolshapestring {S} _.
Arguments getcellslice {S} _.

Record image (S : Type) := {
  (** [summary(list=False)] *)
  summary : value → M S dict;
  (** [coordsys().torecord()] *)
  coordsys_torecord : value → M S value;
  miscinfo : value → M S value
}.
Arguments summary {S} _.
Arguments coordsys_torecord {S} _.
Arguments miscinfo {S} _.

(** What a coordinate system answers: the axis names, the coordinate
    types, and for a coordinate type the ['pixel'] entry of
    [findcoordinate], the numbers of its axes, if there is one. *)
Record coordsys := {
  names : list string;
  coordinatetype : list string;
  findcoordinate_pixel : string → option (list Z)
}.

(** The pixel side of an image: [casatools.image.__init__(self)],
    [open(imagename)], [shape()] and [getchunk(blc, trc, inc)]. *)
Record pixels (S : Type) := {
  image_init : value → M S value;
  open_ : value → value → M S value;
  shape : value → M S (list Z);
  getchunk : value → value → value → value → M S value
}.
Arguments image_init {S} _.
Arguments open_ {S} _.
Arguments shape {S} _.
Arguments getchunk {S} _.

(** What a coordinate system answers per axis: the ['numeric'] entries of
    [referencepixel()], [referencevalue()] and [increment()], whose elements
    are numbers of which nothing is used, and [units()]. *)
Record axes (A : Type) := {
  referencepixel_numeric : list A;
  referencevalue_numeric : list A;
  increment_numeric : list A;
  units : list string
}.
Arguments referencepixel_numeric {A} _.
Arguments referencevalue_numeric {A} _.
Arguments increment_numeric {A} _.
Arguments units {A} _.

End casatools.

(** [shutil.rmtree(path)] removes the tree at [path]: the path itself and
    everything below it. *)
Definition below (path p : string) : bool :=
  bool_decide (p = path) || String.prefix (path +:+ "/") p.

Definition rmtree {S} (path : string) : M S value :=
  λ w, if bool_decide (path ∈ fs w)
       then (ok VNone,
             World (filter (λ p, below path p = false) (fs w)) (eng w))
       else (raise (FileNotFoundError path), w).

(** ** [class table] *)

Module table.

(** An argument that is an [int] or a sequence of [int], a list or a
    tuple.  Other arguments that have a length without being a [Sequence],
    an ndarray for one, are outside this type. *)
Inductive index_arg :=
| Scalar (n : Z)
| Seq (l : list Z).

Definition to_value (x : index_arg) : value :=
  match x with
  | Scalar n => VInt n
  | Seq l => VList (map VInt l)
  end.

(** [len(x)] *)
Definition len (x : index_arg) : result Z :=
  match x with
  | Scalar _ => raise TypeError
  | Seq l => ok (Z.of_nat (length l))
  end.

(** [[x] * n] *)
Definition repeat_scalar (x : Z) (n : Z) : index_arg :=
  Seq (replicate (Z.to_nat n) x).

Definition init_params : list (string * option value) :=
  [("tablename", Some (VStr ""));
   ("tabledesc", Some (VBool false));
   ("nrow", Some (VInt 0));
   ("readonly", Some (VBool true));
   ("lockoptions", Some (VDict []));
   ("ack", Some (VBool true));
   ("dminfo", Some (VDict []));
   ("endian", Some (VStr "aipsrc"));
   ("memorytable", Some (VBool false));
   ("concatsubtables", Some (VList []))].

(** The arguments that [__init__] hands to [super().__init__]. *)
Definition init_forward (a : args) : result args :=
  (let? (bound, kwargs) := bind_params init_params a in
   let? kw := call_keywords
                [("tablename", param bound "tablename");
                 ("lockoptions", param bound "lockoptions");
                 ("nomodify", VBool true)] kwargs in
   ok (Args [] kw))%res.

(** [if isinstance(x, Sequence): x = list(map(int, x[::-1]))] *)
Definition reversed (x : index_arg) : index_arg :=
  match x with
  | Seq l => Seq (reverse l)
  | Scalar _ => x
  end.

(** The arguments that [getcellslice] hands to [super().getcellslice], with
    the statements of the method in their order. *)
Definition getcellslice_forward (columnname : string)
    (rownr blc trc incr : index_arg) : result args :=
  (let? rownr := match rownr with
                 | Seq l => ok (Seq (reverse l))
                 | Scalar n => let? k := len blc in ok (repeat_scalar n k)
                 end in
   let rownr := Scalar 0 in
   let blc := reversed blc in
   let trc := reversed trc in
   let? incr := match incr with
                | Seq l => ok (Seq (reverse l))
                | Scalar n => let? k := len blc in ok (repeat_scalar n k)
                end in
   ok (Args [] [("columnname", VStr columnname);
                ("rownr", to_value rownr);
                ("blc", to_value blc);
                ("trc", to_value trc)]))%res.

(** One entry of what [getcolshapestring] returns:
    [str(list(reversed(ast.literal_eval(shape))))].  A text that
    [py.literal_eval] does not cover is reported as a ValueError. *)
Definition reversed_shape_text (shape : string) : result string :=
  match py.literal_eval shape with
  | Some l => ok (py.str_int_list (reverse l))
  | None => raise (Exn "ValueError" shape)
  end.

Section methods.
Context {S : Type} (e : casatools.table S).

(** The methods as the class body defines them. *)

Definition __init__def (self : value) (a : args) : M S value :=
  (do fwd <- lift (init_forward a);
   casatools.init e self fwd)%M.

(** [table(...)]: a new instance, initialised. *)
Definition new (a : args) : M S value :=
  (do o <- casatools.alloc e;
   do _ <- wrapped (__init__def o a);
   ret o)%M.

Definition _wrap_table (swig_object : value) : M S value :=
  new (Args [] [("swig_object", swig_object)]).

Definition taql_def (self : value) (taqlcommand : string) : M S value :=
  (do n <- casatools.name e self;
   do is_open <- casatools.isopened e self n;
   do from <-
     (if negb is_open
      then (do n' <- casatools.name e self;
            let tablename := n' +:+ "_copy" in
            do tb_query_from <-
              wrapped (casatools.copy e self tablename false false);
            ret (tablename, tb_query_from))
      else (do tablename <- casatools.name e self;
            ret (tablename, self)));
   let tablename := from.1 in
   let tb_query_from := from.2 in
   let tb_query :=
     py.replace "$gtable" tablename
       (py.replace "$mtable" tablename taqlcommand) in
   do _ <- casatools.name e tb_query_from;
   do swig <- casatools.swig_taql e tb_query_from tb_query;
   do tb_query_to <- _wrap_table swig;
   do _ <- (if negb is_open
            then (do _ <- casatools.close e tb_query_from;
                  rmtree tablename)
            else ret VNone);
   do _ <- casatools.name e tb_query_to;
   ret tb_query_to)%M.

Definition getcolshapestring_def (self : value) (a : args) : M S value :=
  (do ret_ <- casatools.getcolshapestring e self a;
   do texts <- lift (rmapM reversed_shape_text ret_);
   ret (VList (map VStr texts)))%M.

Definition getcellslice_def (self : value) (columnname : string)
    (rownr blc trc incr : index_arg) : M S value :=
  (do fwd <- lift (getcellslice_forward columnname rownr blc trc incr);
   do ret_ <- casatools.getcellslice e self fwd;
   ret ret_)%M.

(** The methods as the decorated class has them. *)

Definition __init__ (self : value) (a : args) : M S value :=
  wrapped (__init__def self a).

Definition taql (self : value) (taqlcommand : string) : M S value :=
  wrapped (taql_def self taqlcommand).

Definition getcolshapestring (self : value) (a : args) : M S value :=
  wrapped (getcolshapestring_def self a).

Definition getcellslice (self : value) (columnname : string)
    (rownr blc trc incr : index_arg) : M S value :=
  wrapped (getcellslice_def self columnname rownr blc trc incr).

End methods.

End table.

(** ** [class image] *)

Module image.

(** [d[key]] *)
Definition getitem (d : value) (key : string) : result value :=
  match d with
  | VDict items =>
      match alist_get key items with
      | Some v => ok v
      | None => raise (KeyError key)
      end
  | VArr _ => raise IndexError
  | _ => raise TypeError
  end.

(** [range(n)] *)
Definition range (n : value) : result (list Z) :=
  match n with
  | VInt k => ok (seqZ 0 k)
  | VBool b => ok (seqZ 0 (if b then 1 else 0))
  | _ => raise TypeError
  end.

Definition times (n : value) (p : Z) : Z :=
  match n with
  | VInt k => k * p
  | VBool b => (if b then 1 else 0) * p
  | _ => 0
  end.

Definition star (k : Z) : string := "*" +:+ py.str_int k.

(** The two nested loops, which fill [perplanebeams_flat]. *)
Definition flatten_loops (perplanebeams nchan npol : value) : result dict :=
  (let? cs := range nchan in
   rfold (λ flat c,
     let? ps := range npol in
     rfold (λ flat p,
       let k := times nchan p + c in
       let? row := getitem perplanebeams (star c) in
       let? beam := getitem row (star p) in
       ok (alist_set (star k) beam flat)) flat ps) [] cs)%res.

Definition _flatten_multibeam_def (imageinfo : dict) : result dict :=
  match alist_get "perplanebeams" imageinfo with
  | Some ppb =>
      (let? perplanebeams := getitem ppb "beams" in
       let? nchan := getitem ppb "nChannels" in
       let? npol := getitem ppb "nStokes" in
       let? perplanebeams_flat := flatten_loops perplanebeams nchan npol in
       match ppb with
       | VDict items =>
           ok (alist_set "perplanebeams"
                 (VDict (alist_update (alist_pop "beams" items)
                           perplanebeams_flat))
                 imageinfo)
       | _ => raise TypeError
       end)%res
  | None => ok imageinfo
  end.

Section methods.
Context {S : Type} (e : casatools.image S).

Definition _flatten_multibeam (imageinfo : dict) : M S value :=
  wrapped (lift (rmap VDict (_flatten_multibeam_def imageinfo))).

Definition as_dict (v : value) : M S dict :=
  match v with
  | VDict d => ret d
  | _ => throw TypeError
  end.

Definition info_def (self : value) : M S value :=
  (do imageinfo <- wrapped (do d <- casatools.summary e self; ret (VDict d));
   do imageinfo <- as_dict imageinfo;
   do imageinfo <- _flatten_multibeam imageinfo;
   do coordinates <- casatools.coordsys_torecord e self;
   do miscinfo <- wrapped (casatools.miscinfo e self);
   ret (VDict [("imageinfo", imageinfo);
               ("coordinates", coordinates);
               ("miscinfo", miscinfo)]))%M.

Definition info (self : value) : M S value := wrapped (info_def self).

End methods.

Definition init_params : list (string * option value) :=
  [("imagename", None);
   ("axis", Some (VInt 0));
   ("maskname", Some (VStr ""));
   ("images", Some (VTuple []));
   ("values", Some VNone);
   ("coordsys", Some VNone);
   ("overwrite", Some (VBool true));
   ("ashdf5", Some (VBool false));
   ("mask", Some (VTuple []));
   ("shape", Some VNone);
   ("tileshape", Some (VTuple []))].

(** The names [value] and [outfile] are bound nowhere in the module. *)
Definition NameError (name : string) : exn := Exn "NameError" name.

(** [x if x is not None else d] *)
Definition or_default (x d : value) : value :=
  match x with
  | VNone => d
  | _ => x
  end.

Section pixel_methods.
Context {S : Type} (e : casatools.pixels S).

Definition __init__def (self : value) (a : args) : M S value :=
  (do b <- lift (bind_params init_params a);
   if bool_decide (b.2 = [])
   then (do _ <- casatools.image_init e self;
         match param b.1 "shape" with
         | VNone =>
             do _ <- wrapped (casatools.open_ e self (param b.1 "imagename"));
             ret VNone
         | _ => throw (NameError "value")
         end)
   else throw TypeError)%M.

Definition getdata_def (self blc trc inc : value) : M S value :=
  let blc := or_default blc (VList [VInt (-1)]) in
  let trc := or_default trc (VList [VInt (-1)]) in
  let inc := or_default inc (VList [VInt 1]) in
  casatools.getchunk e self blc trc inc.

Definition shape_def (self : value) : M S value :=
  (do native <- casatools.shape e self;
   ret (VList (map VInt (reverse native))))%M.

Definition __init__ (self : value) (a : args) : M S value :=
  wrapped (__init__def self a).

Definition getdata (self blc trc inc : value) : M S value :=
  wrapped (getdata_def self blc trc inc).

Definition shape (self : value) : M S value := wrapped (shape_def self).

End pixel_methods.

End image.

(** ** [class coordinatesystem]

    This class is not decorated: what its methods return reaches the caller
    as it is. *)

Module coordinatesystem.

Section methods.
Context (_cs : casatools.coordsys).

Definition get_names : list string :=
  map py.lower (reverse (casatools.coordinatetype _cs)).

(** One turn of the loop of [get_axes]: the entry for [axis_type]. *)
Definition axes_entry (axis_names : list string) (axis_type : string)
  : result value :=
  match casatools.findcoordinate_pixel _cs axis_type with
  | None => raise TypeError
  | Some axis_inds =>
      (let? axes_list := rmapM (py.index axis_names) (reverse axis_inds) in
       if bool_decide (axis_type = "spectral")
       then (let? first := py.index axes_list 0 in ok (VStr first))
       else ok (VList (map VStr axes_list)))%res
  end.

Definition get_axes : result (list value) :=
  let axes := [] in
  let axis_names := casatools.names _cs in
  rfold (λ axes axis_type,
           rbind (axes_entry axis_names axis_type)
                 (λ axes_list, ok (axes ++ [axes_list])))
        axes get_names.

End methods.

Section axis_methods.
Context {A : Type} (_cs : casatools.axes A).

Definition get_referencepixel : list A :=
  reverse (casatools.referencepixel_numeric _cs).

Definition get_referencevalue : list A :=
  reverse (casatools.referencevalue_numeric _cs).

Definition get_increment : list A :=
  reverse (casatools.increment_numeric _cs).

Definition get_unit : list string := reverse (casatools.units _cs).

End axis_methods.



End coordinatesystem.

(** ** [class tablerow] and [class tablecolumn] *)

(** [len(x)], given what [x.__len__()] returned. *)
Definition len_of (v : value) : result Z :=
  match v with
  | VInt n => if bool_decide (n < 0) then raise ValueError else ok n
  | VBool b => ok (if b then 1 else 0)
  | _ => raise TypeError
  end.

(** [key.indices(n)], given the value of [n]. *)
Definition indices_of (start stop step : option Z) (n : value)
  : result (Z * Z * Z) :=
  match n with
  | VInt k => py.slice_indices start stop step k
  | VBool b => py.slice_indices start stop step (if b then 1 else 0)
  | _ => raise TypeError
  end.

(** [range] over the triple that [indices] returns *)
Definition range_of (t : Z * Z * Z) : list Z := py.range t.1.1 t.1.2 t.2.

Section views.
Context {S : Type}.

(** [super().name(args)]: the function the base class has under that name. *)
Definition super (base : list (string * member S)) (name : string)
  : func S :=
  λ self a,
    match alist_get name base with
    | Some (MFunc f) => f self a
    | Some (MAttr _) => throw TypeError
    | None => throw (Exn "AttributeError" name)
    end.

(** The one parameter of a method that has one. *)
Definition one_param (name : string) (a : args) : result value :=
  (let? (bound, kwargs) := bind_params [(name, None)] a in
   if bool_decide (kwargs = []) then ok (param bound name)
   else raise TypeError)%res.

End views.

Module tablerow.
Section methods.
Context {S : Type} (base : list (string * member S)).

Definition __init__ : func S :=
  λ self a,
    (do b <- lift (bind_params [("table", None);
                                ("columnnames", Some (VList []));
                                ("exclude", Some (VBool false))] a);
     if bool_decide (b.2 = [])
     then super base "__init__" self
            (Args [param b.1 "table"]
                  [("columnnames", param b.1 "columnnames");
                   ("exclude", param b.1 "exclude")])
     else throw TypeError)%M.

Definition get : func S :=
  λ self a,
    (do rownr <- lift (one_param "rownr" a);
     super base "get" self (Args [rownr] []))%M.

Definition __getitem__ : func S :=
  λ self a,
    (do key <- lift (one_param "key" a);
     match key with
     | VSlice start stop step =>
         do n <- self "__len__" (Args [] []);
         do n <- lift (len_of n);
         do t <- lift (py.slice_indices start stop step n);
         do rows <- mapM (λ irow, self "get" (Args [VInt irow] []))
                         (range_of t);
         ret (VList rows)
     | VInt _ | VBool _ => self "get" (Args [key] [])
     | _ => ret VNone
     end)%M.

(** The class body, with [get] under its own [@method_wrapper]. *)
Definition body : class S :=
  Class [("__init__", MFunc __init__);
         ("get", MFunc (method_wrapper get));
         ("__getitem__", MFunc __getitem__)]
        [base].

(** The class, under [@wrap_class_methods]. *)
Definition cls : class S := wrap_class_methods body.

End methods.
End tablerow.

Module tablecolumn.
Section methods.
Context {S : Type} (_table : obj S) (_columnname : string).

Definition __init__ : func S :=
  λ self a,
    (do b <- lift (bind_params [("table", None); ("columnname", None)] a);
     if bool_decide (b.2 = []) then ret VNone else throw TypeError)%M.

Definition get : func S :=
  λ self a,
    (do irow <- lift (one_param "irow" a);
     _table "getcell" (Args [VStr _columnname; irow] []))%M.

Definition __getitem__ : func S :=
  λ self a,
    (do key <- lift (one_param "key" a);
     match key with
     | VSlice start stop step =>
         do n <- _table "nrows" (Args [] []);
         do t <- lift (indices_of start stop step n);
         do rows <- mapM (λ irow, self "get" (Args [VInt irow] []))
                         (range_of t);
         ret (VList rows)
     | VInt _ | VBool _ => self "get" (Args [key] [])
     | _ => ret VNone
     end)%M.

Definition body : class S :=
  Class [("__init__", MFunc __init__);
         ("get", MFunc (method_wrapper get));
         ("__getitem__", MFunc __getitem__)]
        [].

Definition cls : class S := wrap_class_methods body.

End methods.
End tablecolumn.

(** [table.row(columnnames, exclude)] and [table.col(columnname)]: a view
    that holds the table.  [base] is the engine's [tablerow] class. *)
Definition table_row {S} (base : list (string * member S)) (depth : nat)
    (self columnnames exclude : value) : M S (obj S) :=
  (do _ <- call depth (tablerow.cls base) "__init__"
             (Args [self] [("columnnames", columnnames);
                           ("exclude", exclude)]);
   ret (call depth (tablerow.cls base)))%M.

Definition table_col {S} (depth : nat) (self : obj S) (columnname : string)
  : obj S :=
  call depth (tablecolumn.cls self columnname).


(** ** Example data *)

Module examples.

(** A 2 x 3 array in column-major layout, 8 bytes per element: the matrix
    with rows 1 2 3 and 4 5 6. *)
Definition fortran_2x3 : np.ndarray :=
  np.mk_ndarray [2; 3] [8; 16] 8 [1; 4; 2; 5; 3; 6].

(** A 1 x 3 array, as the engine hands it out: three channels of a single
    correlation.  With one axis of extent 1 it is contiguous both ways. *)
Definition fortran_1x3 : np.ndarray :=
  np.mk_ndarray [1; 3] [8; 8] 8 [7; 8; 9].

(** [{"a": [{"x": fortran_2x3}]}] *)
Definition nested : value :=
  VDict [("a", VList [VDict [("x", VArr fortran_2x3)]])].

(** A row of a table with one column, whose cell is [fortran_1x3]. *)
Definition row : value := VDict [("DATA", VArr fortran_1x3)].

(** A [casatools.tablerow] over three such rows; it has no state. *)
Definition rows_base : list (string * member unit) :=
  [("__init__", MFunc (λ _ _, ret VNone));
   ("__len__", MFunc (λ _ _, ret (VInt 3)));
   ("get", MFunc (λ _ _, ret row))].

Definition nowhere : world unit := World [] ().

(** A table over three rows whose cells are [fortran_1x3]: the decorated
    class with the engine's [getcell] and [nrows], which it inherits. *)
Definition cells_base : list (string * member unit) :=
  [("getcell", MFunc (λ _ _, ret (VArr fortran_1x3)));
   ("nrows", MFunc (λ _ _, ret (VInt 3)))].

Definition table_of_cells : obj unit :=
  call 1 (wrap_class_methods (Class [] [cells_base])).

(** The coordinate system of an image cube: two direction axes, a Stokes
    axis and a frequency axis. *)
Definition cube : casatools.coordsys :=
  {| casatools.names :=
       ["Right Ascension"; "Declination"; "Stokes"; "Frequency"];
     casatools.coordinatetype := ["Direction"; "Stokes"; "Spectral"];
     casatools.findcoordinate_pixel := λ axis_type,
       if bool_decide (axis_type = "direction") then Some [0; 1]
       else if bool_decide (axis_type = "stokes") then Some [2]
       else if bool_decide (axis_type = "spectral") then Some [3]
       else Some [] |}.

(** A small engine.  Its state is the table name of every object, by
    object number, and the names of the tables that are open.  A copy gets
    a directory and is open; a query that starts with [select] gives a new
    result table, any other query is refused. *)
Record toy_state := Toy {
  table_names : list string;
  opened : list string
}.

Definition toy_name (o : value) (s : toy_state) : string :=
  match o with
  | VObj h => default "" (table_names s !! h)
  | _ => ""
  end.

Definition toy_new (n : string) : M toy_state value :=
  λ w, (ok (VObj (length (table_names (eng w)))),
        World (fs w) (Toy (table_names (eng w) ++ [n]) (opened (eng w)))).

Definition toy : casatools.table toy_state :=
  {| casatools.alloc := toy_new "";
     casatools.init := λ self a w,
       match self, alist_get "swig_object" (keywords a) with
       | VObj h, Some swig =>
           (ok VNone,
            World (fs w)
              (Toy (<[h := toy_name swig (eng w)]> (table_names (eng w)))
                   (opened (eng w))))
       | _, _ => (ok VNone, w)
       end;
     casatools.name := λ o w, (ok (toy_name o (eng w)), w);
     casatools.isopened := λ _ n w,
       (ok (bool_decide (n ∈ opened (eng w))), w);
     casatools.copy := λ _ newtablename _ _ w,
       toy_new newtablename
         (World (fs w ++ [newtablename])
            (Toy (table_names (eng w)) (newtablename :: opened (eng w))));
     casatools.close := λ o w,
       (ok VNone,
        World (fs w)
          (Toy (table_names (eng w))
               (filter (λ n, n ≠ toy_name o (eng w)) (opened (eng w)))));
     casatools.swig_taql := λ _ command w,
       if String.prefix "select" command
       then toy_new "query result" w
       else (raise (Exn "RuntimeError" command), w);
     casatools.getcolshapestring := λ _ _ w, (ok ["[5, 10]"; "[4]"], w);
     casatools.getcellslice := λ _ _ w, (ok VNone, w) |}.

(** A table on disk that is not open; object 0 stands for it. *)
Definition closed_ms : world toy_state :=
  World ["my.ms"] (Toy ["my.ms"] []).

(** The summary of an image of three channels and two polarizations; the
    beam of channel [c] and polarization [p] is marked by [10 * c + p]. *)
Definition beam (c p : Z) : value :=
  VDict [("major", VDict [("unit", VStr "arcsec"); ("value", VInt (10 * c + p))])].

Definition plane (c : Z) : value :=
  VDict [("*0", beam c 0); ("*1", beam c 1)].

Definition summary_3x2 : dict :=
  [("ndim", VInt 4);
   ("perplanebeams",
    VDict [("beams", VDict [("*0", plane 0); ("*1", plane 1); ("*2", plane 2)]);
           ("nChannels", VInt 3);
           ("nStokes", VInt 2)]);
   ("unit", VStr "Jy/beam")].

Definition image_3x2 : casatools.image unit :=
  {| casatools.summary := λ _, ret summary_3x2;
     casatools.coordsys_torecord := λ _, ret (VDict []);
     casatools.miscinfo := λ _, ret (VDict []) |}.

(** An engine table that keeps answering after [close]: its state says
    whether it is open, and [getcell] does not look at it. *)
Definition stale_table : obj bool :=
  λ name a w,
    if bool_decide (name = "close") then (ok VNone, World (fs w) false)
    else if bool_decide (name = "getcell") then (ok (VInt 42), w)
    else (raise (Exn "AttributeError" name), w).

(** A row whose cell is [fortran_2x3], and a [casatools.tablerow] over
    three such rows: one pass of the normalizer settles them. *)
Definition settled_row : value := VDict [("DATA", VArr fortran_2x3)].

Definition settled_rows_base : list (string * member unit) :=
  [("__init__", MFunc (λ _ _, ret VNone));
   ("__len__", MFunc (λ _ _, ret (VInt 3)));
   ("get", MFunc (λ _ _, ret settled_row))].

(** The engine's side of a table over three rows whose cells are
    [fortran_2x3]. *)
Definition settled_cells_base : list (string * member unit) :=
  [("getcell", MFunc (λ _ _, ret (VArr fortran_2x3)));
   ("nrows", MFunc (λ _ _, ret (VInt 3)))].

(** The same table on disk as [closed_ms], open. *)
Definition open_ms : world toy_state :=
  World ["my.ms"] (Toy ["my.ms"] ["my.ms"]).

(** An image of 2 x 3 pixels.  The state of the engine is the name of the
    image that is open, if one is. *)
Definition pixels_2x3 : casatools.pixels (option string) :=
  {| casatools.image_init := λ _, ret VNone;
     casatools.open_ := λ _ imagename w,
       match imagename with
       | VStr n => (ok (VBool true), World (fs w) (Some n))
       | _ => (raise TypeError, w)
       end;
     casatools.shape := λ _, ret [2; 3];
     casatools.getchunk := λ _ _ _ _, ret (VArr fortran_2x3) |}.

Definition no_image : world (option string) := World ["my.im"] None.

(** The axes of [cube]: reference pixels, reference values and increments
    in some unit of account, and the units. *)
Definition cube_axes : casatools.axes Z :=
  {| casatools.referencepixel_numeric := [128; 128; 0; 0];
     casatools.referencevalue_numeric := [5; -1; 1; 1400];
     casatools.increment_numeric := [-1; 1; 1; 2];
     casatools.units := ["rad"; "rad"; ""; "Hz"] |}.

(** A 1 x 3 array in row-major layout, as [np.zeros((1, 3))] makes it:
    the strides are 24 and 8 bytes. *)
Definition row_major_1x3 : np.ndarray :=
  np.mk_ndarray [1; 3] [24; 8] 8 [7; 8; 9].




End examples.

(** ** What the proofs talk about *)

(** A mapping with one key that holds a sequence of one-key mappings, each
    holding an array. *)
Definition rows_of_arrays (key : string) (rows : list (string * np.ndarray))
  : value :=
  VDict [(key, VList (map (λ r, VDict [(r.1, VArr r.2)]) rows))].

(** What the loops keep true of [perplanebeams_flat]: the planes in [P]
    are at their linear index, and every key is a linear index. *)
Definition flat_upto (nchan npol : Z) (beam : Z → Z → value)
    (P : Z → Z → Prop) (flat : dict) : Prop :=
  (∀ c p, P c p → 0 ≤ c < nchan → 0 ≤ p < npol →
     alist_get (image.star (nchan * p + c)) flat = Some (beam c p))
  ∧ (∀ key v, alist_get key flat = Some v → ∃ k, key = image.star k)
  ∧ NoDup (alist_keys flat).

(** All characters of a string are decimal digits. *)
Fixpoint all_digits (s : string) : bool :=
  match s with
  | EmptyString => true
  | String c s' => py.is_digit c && all_digits s'
  end.

(** The digits of a number, as [pretty] writes them. *)
Definition digits (x : N) : string := pretty_N_go x "".

(** The tokens of an integer as [str] writes it. *)
Definition int_tokens (z : Z) : list py.token :=
  if bool_decide (z < 0) then [py.TMinus; py.TNum (pretty (Z.abs_N z))]
  else [py.TNum (pretty (Z.abs_N z))].

(** The tokens of the elements of a display, and of its closing bracket. *)
Fixpoint elems_tokens (l : list Z) : list py.token :=
  match l with
  | [] => [py.TRbr]
  | [z] => int_tokens z ++ [py.TRbr]
  | z :: l' => int_tokens z ++ py.TComma :: elems_tokens l'
  end.




(** The axis names in an entry of [get_axes]. *)
Definition names_in (entry : value) : list string :=
  match entry with
  | VStr s => [s]
  | VList l => omap (λ v, match v with VStr s => Some s | _ => None end) l
  | _ => []
  end.

(** A character does not occur in a string. *)
Fixpoint free_of (c : ascii) (s : string) : bool :=
  match s with
  | EmptyString => true
  | String c' s' => negb (bool_decide (c' = c)) && free_of c s'
  end.

(** * Proofs *)

(** ** Properties of the array model *)

Section zip_reverse.
Context {A B C : Type} (f : A → B → C).

Lemma zip_with_reverse (l : list A) (k : list B) :
  length l = length k →
  zip_with f (reverse l) (reverse k) = reverse (zip_with f l k).
Proof.
  revert k. induction l as [|x l IH]; intros [|y k] Hlen; simplify_eq/=; [done|].
  rewrite !reverse_cons, zip_with_app by (rewrite !length_reverse; done).
  by rewrite IH.
Qed.

End zip_reverse.

Lemma foldr_add_reverse (l : list Z) :
  foldr Z.add 0 (reverse l) = foldr Z.add 0 l.
Proof.
  induction l as [|x l IH]; [done|].
  rewrite reverse_cons, foldr_app. simpl.
  rewrite <- IH. generalize (reverse l). intros k.
  induction k as [|y k IHk]; simpl; lia.
Qed.

Lemma forallb_reverse {A} (p : A → bool) (l : list A) :
  forallb p (reverse l) = forallb p l.
Proof.
  induction l as [|x l IH]; [done|].
  rewrite reverse_cons, forallb_app. simpl. rewrite IH.
  destruct (p x), (forallb p l); done.
Qed.

Lemma T_involutive (a : np.ndarray) : np.T (np.T a) = a.
Proof. destruct a. unfold np.T. simpl. by rewrite !reverse_involutive. Qed.

Lemma c_contiguous_T (a : np.ndarray) :
  np.c_contiguous (np.T a) = np.f_contiguous a.
Proof.
  unfold np.c_contiguous, np.f_contiguous, np.T. simpl.
  rewrite !reverse_involutive. f_equal.
  apply bool_decide_ext. by rewrite elem_of_reverse.
Qed.

Lemma in_bounds_reverse (idx dims : list Z) :
  length idx = length dims →
  np.in_bounds (reverse idx) (reverse dims) = np.in_bounds idx dims.
Proof.
  intros Hlen. unfold np.in_bounds.
  by rewrite (zip_with_reverse pair), forallb_reverse.
Qed.

Lemma offset_of_reverse (idx strs : list Z) :
  length idx = length strs →
  np.offset_of (reverse idx) (reverse strs) = np.offset_of idx strs.
Proof.
  intros Hlen. unfold np.offset_of.
  by rewrite zip_with_reverse, foldr_add_reverse.
Qed.

Lemma item_T (a : np.ndarray) (idx : list Z) :
  np.item (np.T a) (reverse idx) = np.item a idx.
Proof.
  unfold np.item, np.T. simpl. rewrite !length_reverse.
  destruct (bool_decide_reflect
    (length idx = length (np.shape a)
     ∧ length (np.strides a) = length (np.shape a))) as [[H1 H2]|]; [|done].
  by rewrite in_bounds_reverse, offset_of_reverse by congruence.
Qed.

(** ** The normalizer *)

Lemma recursive_transpose_rows key rows :
  Forall (λ r, np.f_contiguous r.2 = true) rows →
  recursive_transpose (rows_of_arrays key rows)
  = rows_of_arrays key (map (λ r, (r.1, np.T r.2)) rows).
Proof.
  intros Hrows. unfold rows_of_arrays. simpl. do 4 f_equal.
  induction Hrows as [|[k a] rows Ha _ IH]; [done|].
  simpl in *. by rewrite Ha, IH.
Qed.

(** C1: [recursive_transpose] by cases.  An array whose F_CONTIGUOUS flag is
    set comes back as its transpose: the axes are reversed, the element at a
    reversed index is the element at the index, and the result is
    C-contiguous.  A list comes back as a list of the same length with the
    normalizer applied to each element in order.  A dict comes back with the
    same keys in the same order and the normalizer applied to each value.
    Everything else, an array without the F flag and a tuple included, comes
    back as it is.  In particular a mapping that holds a sequence of mappings that each
    hold a column-major array has every leaf transposed, with keys, order
    and lengths as before. *)
Theorem recursive_transpose_cases :
  (∀ val : value,
     match val with
     | VArr a =>
         if np.f_contiguous a
         then recursive_transpose val = VArr (np.T a)
              ∧ np.shape (np.T a) = reverse (np.shape a)
              ∧ (∀ idx, np.item (np.T a) (reverse idx) = np.item a idx)
              ∧ np.c_contiguous (np.T a) = true
         else recursive_transpose val = val
     | VList l =>
         ∃ l', recursive_transpose val = VList l'
               ∧ length l' = length l
               ∧ ∀ i, l' !! i = recursive_transpose <$> l !! i
     | VDict d =>
         ∃ d', recursive_transpose val = VDict d'
               ∧ alist_keys d' = alist_keys d
               ∧ ∀ i, d' !! i
                      = (λ kv, (kv.1, recursive_transpose kv.2)) <$> d !! i
     | _ => recursive_transpose val = val
     end)
  ∧ (∀ key rows,
       Forall (λ r, np.f_contiguous r.2 = true) rows →
       recursive_transpose (rows_of_arrays key rows)
       = rows_of_arrays key (map (λ r, (r.1, np.T r.2)) rows)).
Proof.
  split; [|apply recursive_transpose_rows].
  intros [| | | |a|l|l|d| |]; simpl; try done.
  - destruct (np.f_contiguous a) eqn:Hf; [|done].
    split_and!; [done|done|apply item_T|by rewrite c_contiguous_T].
  - eexists. split_and!; [done|by rewrite length_map|].
    intros i. by rewrite list_lookup_fmap.
  - eexists. split_and!; [done| |].
    + unfold alist_keys. rewrite <- list_fmap_compose.
      apply list_fmap_ext. by intros ? [??].
    + intros i. rewrite list_lookup_fmap.
      destruct (d !! i) as [[??]|]; done.
Qed.

Lemma recursive_transpose_cases_witness :
  recursive_transpose examples.nested
  = VDict [("a", VList [VDict [("x", VArr (np.T examples.fortran_2x3))]])]
  ∧ np.shape (np.T examples.fortran_2x3) = [3; 2]
  ∧ np.item (np.T examples.fortran_2x3) [2; 1] = Some 6.
Proof.
  split; [|split; reflexivity].
  apply (proj2 recursive_transpose_cases "a" [("x", examples.fortran_2x3)]).
  repeat constructor.
Defined.

(** C1 as first worded fails in two places.  An array that is already in
    row-major layout is not always left as it is: the 1 x 3 array
    [row_major_1x3] is contiguous both ways, so it has the F flag and comes
    back with shape 3 x 1.  And not every ordered sequence is walked: a
    tuple that holds a column-major array comes back with the array as it
    was. *)
Lemma recursive_transpose_beyond_layout :
  np.c_contiguous examples.row_major_1x3 = true
  ∧ recursive_transpose (VArr examples.row_major_1x3)
    = VArr (np.mk_ndarray [3; 1] [8; 24] 8 [7; 8; 9])
  ∧ recursive_transpose (VArr examples.row_major_1x3)
    ≠ VArr examples.row_major_1x3
  ∧ np.f_contiguous examples.fortran_2x3 = true
  ∧ np.c_contiguous examples.fortran_2x3 = false
  ∧ recursive_transpose (VTuple [VArr examples.fortran_2x3])
    = VTuple [VArr examples.fortran_2x3].
Proof. split_and!; done. Qed.

(** ** The interception layer *)

Section interception_facts.
Context {S : Type}.
Implicit Types (cls : class S) (f : func S) (m : member S).

Lemma alist_get_set {A} (key k : string) (v : A) (d : list (string * A)) :
  alist_get key (alist_set k v d)
  = if decide (k = key) then Some v else alist_get key d.
Proof.
  induction d as [|[k' v'] d IH]; simpl.
  - repeat case_decide; done.
  - repeat (case_decide; simpl; simplify_eq); done.
Qed.

Lemma alist_get_Some_keys {A} (key : string) (v : A) d :
  alist_get key d = Some v → key ∈ alist_keys d.
Proof.
  induction d as [|[k' v'] d IH]; simpl; [done|].
  case_decide; simplify_eq.
  - intros _. apply list_elem_of_here.
  - intros Hrest. apply list_elem_of_further. by apply IH.
Qed.

Lemma getattr_setattr cls k m name :
  getattr (setattr cls k m) name
  = if decide (k = name) then Some m else getattr cls name.
Proof.
  unfold getattr, setattr. simpl. rewrite alist_get_set.
  case_decide; done.
Qed.

Lemma getattr_dir cls name m :
  getattr cls name = Some m → name ∈ dir cls.
Proof.
  unfold getattr, dir. generalize (own cls :: mro_tail cls). intros tables.
  rewrite elem_of_remove_dups.
  induction tables as [|t tables IH]; simpl; [done|].
  destruct (alist_get name t) eqn:Ht.
  - intros _. apply elem_of_app. left. by eapply alist_get_Some_keys.
  - intros Hrest. apply elem_of_app. right. by apply IH.
Qed.

Lemma getmembers_elem cls name f :
  (name, f) ∈ getmembers_isfunction cls
  ↔ getattr cls name = Some (MFunc f).
Proof.
  unfold getmembers_isfunction. rewrite list_elem_of_omap. split.
  - intros (n & _ & Hn). destruct (getattr cls n) as [[g|]|] eqn:Hg;
      by simplify_eq.
  - intros Hf. exists name. rewrite Hf. split; [|done].
    by eapply getattr_dir.
Qed.

Lemma getmembers_names cls name :
  name ∈ (getmembers_isfunction cls).*1
  → ∃ f, getattr cls name = Some (MFunc f).
Proof.
  rewrite list_elem_of_fmap. intros ([n f] & -> & Hin).
  exists f. by apply getmembers_elem.
Qed.

Lemma getmembers_NoDup cls : NoDup (getmembers_isfunction cls).*1.
Proof.
  unfold getmembers_isfunction, dir.
  generalize (NoDup_remove_dups
    (concat (map alist_keys (own cls :: mro_tail cls)))).
  generalize (remove_dups (concat (map alist_keys (own cls :: mro_tail cls)))).
  intros names. induction 1 as [|n names Hn Hnd IH]; simpl; [constructor|].
  destruct (getattr cls n) as [[g|]|]; simpl; try done.
  constructor; [|done].
  rewrite list_elem_of_fmap. intros ([n' f] & Heq & Hin). simpl in Heq. subst n'.
  apply list_elem_of_omap in Hin as (n' & Hn' & Heq).
  destruct (getattr cls n') as [[?|]|]; by simplify_eq.
Qed.

Lemma getattr_fold_setattr (L : list (string * func S)) cls name :
  NoDup L.*1 →
  (∀ f, (name, f) ∈ L →
     getattr (fold_left (λ c nm, setattr c nm.1 (MFunc (method_wrapper nm.2)))
                        L cls) name
     = Some (MFunc (method_wrapper f)))
  ∧ (name ∉ L.*1 →
     getattr (fold_left (λ c nm, setattr c nm.1 (MFunc (method_wrapper nm.2)))
                        L cls) name
     = getattr cls name).
Proof.
  revert cls. induction L as [|[n g] L IH]; intros cls Hnd.
  { split; [by intros f ?%elem_of_nil|done]. }
  apply NoDup_cons in Hnd as [Hn Hnd]. simpl in *.
  destruct (IH (setattr cls n (MFunc (method_wrapper g))) Hnd) as [IH1 IH2].
  split.
  - intros f [Heq|Hin]%elem_of_cons.
    + simplify_eq. rewrite IH2 by done. rewrite getattr_setattr.
      by rewrite decide_True.
    + by apply IH1.
  - intros Hname. apply not_elem_of_cons in Hname as [Hne Hname].
    rewrite IH2 by done. rewrite getattr_setattr.
    by rewrite decide_False.
Qed.

(** Every function of the class, inherited ones included, is replaced by
    its wrapper; what is not a function stays. *)
Lemma getattr_wrap_class_methods cls name :
  getattr (wrap_class_methods cls) name
  = match getattr cls name with
    | Some (MFunc f) => Some (MFunc (method_wrapper f))
    | other => other
    end.
Proof.
  unfold wrap_class_methods.
  destruct (getattr_fold_setattr (getmembers_isfunction cls) cls name
              (getmembers_NoDup cls)) as [H1 H2].
  destruct (getattr cls name) as [[f|v]|] eqn:Hget.
  - apply H1. by apply getmembers_elem.
  - rewrite H2; [done|]. intros [f Hf]%getmembers_names. congruence.
  - rewrite H2; [done|]. intros [f Hf]%getmembers_names. congruence.
Qed.

(** The wrapper hands [self] and the arguments on as they are, keeps the
    effects and the exception of the call, and normalizes what it returns. *)
Lemma method_wrapper_run f (self : obj S) (a : args) (w : world S) :
  method_wrapper f self a w
  = ((rmap recursive_transpose (f self a w).1), (f self a w).2).
Proof.
  unfold method_wrapper, wrapped, bind, ret.
  destruct (f self a w) as [[e|v] w']; done.
Qed.

Lemma call_wrap_class_methods depth cls name f a :
  getattr cls name = Some (MFunc f) →
  call (Datatypes.S depth) (wrap_class_methods cls) name a
  = wrapped (f (call depth (wrap_class_methods cls)) a).
Proof.
  intros Hget. simpl. by rewrite getattr_wrap_class_methods, Hget.
Qed.

End interception_facts.

(** Where a second pass of the normalizer does nothing. *)
Lemma recursive_transpose_settled (val : value) :
  settled val = true →
  recursive_transpose (recursive_transpose val) = recursive_transpose val.
Proof.
  induction val as [| | | |a|l IH|l IH|d IH| |] using value_ind;
    simpl; try done.
  - unfold turns_back. intros Ha.
    destruct (np.f_contiguous a) eqn:Hf; simpl in *; [|by rewrite Hf].
    destruct (np.f_contiguous (np.T a)) eqn:Hft; simpl in *; [|done].
    apply negb_true_iff, negb_false_iff, bool_decide_eq_true in Ha.
    by rewrite T_involutive, Ha.
  - intros Hl. f_equal. rewrite <- list_fmap_compose.
    apply list_fmap_ext. intros i x Hx. simpl.
    rewrite Forall_lookup in IH. apply (IH i x Hx).
    rewrite forallb_forall in Hl. apply Hl, list_elem_of_In.
    by eapply list_elem_of_lookup_2.
  - intros Hd. f_equal. rewrite <- list_fmap_compose.
    apply list_fmap_ext. intros i [k v] Hx. simpl. f_equal.
    rewrite Forall_lookup in IH. apply (IH i (k, v) Hx).
    rewrite forallb_forall in Hd. apply (Hd (k, v)), list_elem_of_In.
    by eapply list_elem_of_lookup_2.
Qed.

(** Where it does not: the second pass undoes the first. *)
Lemma recursive_transpose_turns_back (a : np.ndarray) :
  turns_back a = true →
  recursive_transpose (VArr a) = VArr (np.T a)
  ∧ recursive_transpose (recursive_transpose (VArr a)) = VArr a
  ∧ np.T a ≠ a.
Proof.
  unfold turns_back. intros Ha.
  apply andb_true_iff in Ha as [Ha Hne].
  apply andb_true_iff in Ha as [Hf Hft].
  apply negb_true_iff, bool_decide_eq_false in Hne.
  simpl. rewrite Hf. simpl. by rewrite Hft, T_involutive.
Qed.

(** [tablerow.get] carries two wrappers: its own decorator and the one the
    class decorator adds. *)
Lemma tablerow_get_wrapped_twice {S} (base : list (string * member S))
    depth a :
  call (Datatypes.S depth) (tablerow.cls base) "get" a
  = wrapped (wrapped (tablerow.get base (call depth (tablerow.cls base)) a)).
Proof.
  unfold tablerow.cls.
  by rewrite (call_wrap_class_methods depth _ "get"
                (method_wrapper (tablerow.get base))).
Qed.

(** C2, at a row whose cell has native shape (1, 3): the normalizer sends
    the cell to shape (3, 1), but [tablerow.get], which is wrapped twice,
    hands the row out with the cell transposed twice, in its native
    shape. *)
Theorem tablerow_get_transposes_twice :
  call 1 (tablerow.cls examples.rows_base) "get" (Args [VInt 0] [])
       examples.nowhere
  = (ok (VDict [("DATA", VArr (np.T (np.T examples.fortran_1x3)))]),
     examples.nowhere)
  ∧ recursive_transpose examples.row
    = VDict [("DATA", VArr (np.T examples.fortran_1x3))]
  ∧ np.shape (np.T examples.fortran_1x3) = [3; 1]
  ∧ np.shape (np.T (np.T examples.fortran_1x3)) = [1; 3].
Proof. by vm_compute. Qed.

(** ** Row and column views *)

Section view_facts.
Context {S : Type}.

(** Indexing a row view with an integer is [get], under one more wrapper. *)
Lemma tablerow_getitem_int (base : list (string * member S)) depth k :
  call (Datatypes.S (Datatypes.S depth)) (tablerow.cls base) "__getitem__"
       (Args [VInt k] [])
  = wrapped (call (Datatypes.S depth) (tablerow.cls base) "get"
                  (Args [VInt k] [])).
Proof.
  unfold tablerow.cls at 1.
  by rewrite (call_wrap_class_methods _ _ "__getitem__"
                tablerow.__getitem__).
Qed.

(** Indexing a row view with a slice: the length, the resolved range, one
    [get] per index in order, and one more wrapper around the list. *)
Lemma tablerow_getitem_slice (base : list (string * member S)) depth
    start stop step :
  let view := call (Datatypes.S depth) (tablerow.cls base) in
  call (Datatypes.S (Datatypes.S depth)) (tablerow.cls base) "__getitem__"
       (Args [VSlice start stop step] [])
  = wrapped
      (do n <- view "__len__" (Args [] []);
       do n <- lift (len_of n);
       do t <- lift (py.slice_indices start stop step n);
       do rows <- mapM (λ irow, view "get" (Args [VInt irow] []))
                       (range_of t);
       ret (VList rows))%M.
Proof.
  unfold tablerow.cls at 2.
  by rewrite (call_wrap_class_methods _ _ "__getitem__"
                tablerow.__getitem__).
Qed.

(** [tablecolumn.get]: the owning table's [getcell], under two wrappers. *)
Lemma tablecolumn_get_wrapped_twice (_table : obj S) col depth irow :
  call (Datatypes.S depth) (tablecolumn.cls _table col) "get"
       (Args [irow] [])
  = wrapped (wrapped (_table "getcell" (Args [VStr col; irow] []))).
Proof.
  unfold tablecolumn.cls.
  by rewrite (call_wrap_class_methods depth _ "get"
                (method_wrapper (tablecolumn.get _table col))).
Qed.

Lemma tablecolumn_getitem_int (_table : obj S) col depth k :
  call (Datatypes.S (Datatypes.S depth)) (tablecolumn.cls _table col)
       "__getitem__" (Args [VInt k] [])
  = wrapped (call (Datatypes.S depth) (tablecolumn.cls _table col) "get"
                  (Args [VInt k] [])).
Proof.
  unfold tablecolumn.cls at 1.
  by rewrite (call_wrap_class_methods _ _ "__getitem__"
                (tablecolumn.__getitem__ _table)).
Qed.

Lemma wrapped_run (m : M S value) (w : world S) :
  wrapped m w = (rmap recursive_transpose (m w).1, (m w).2).
Proof. unfold wrapped, bind, ret. by destruct (m w) as [[e|v] w']. Qed.

(** What [get] returns when the engine's row is settled is left alone by
    one more pass. *)
Lemma tablerow_get_fixed (base : list (string * member S)) depth a w v w' :
  (∀ self a w v, (super base "get" self a w).1 = ok v → settled v = true) →
  call (Datatypes.S depth) (tablerow.cls base) "get" a w = (ok v, w') →
  recursive_transpose v = v.
Proof.
  intros Hsettled. rewrite tablerow_get_wrapped_twice, !wrapped_run.
  unfold tablerow.get, bind, lift.
  destruct (one_param "rownr" a) as [?|rownr]; [done|].
  pose proof (Hsettled (call depth (tablerow.cls base)) (Args [rownr] []) w)
    as Hrow.
  destruct (super base "get" _ _ w) as [[?|v0] w0]; [done|].
  simpl. intros [= <- _].
  by rewrite !(recursive_transpose_settled v0 (Hrow v0 eq_refl)).
Qed.

Lemma mapM_fixed {A} (f : A → M S value) (l : list A) w rows w' :
  (∀ x w v w', f x w = (ok v, w') → recursive_transpose v = v) →
  mapM f l w = (ok rows, w') →
  map recursive_transpose rows = rows.
Proof.
  intros Hf. revert w rows w'.
  induction l as [|x l IH]; intros w rows w'; simpl.
  { by intros [= <- _]. }
  unfold bind, ret. destruct (f x w) as [[?|v] w1] eqn:Hx; [done|].
  destruct (mapM f l w1) as [[?|vs] w2] eqn:Hl; [done|].
  intros [= <- _]. simpl. by rewrite (Hf _ _ _ _ Hx), (IH _ _ _ Hl).
Qed.

(** Where the engine's rows hold no array that a second pass turns back,
    indexing a row view is [get]: with an integer, [get] of that row; with a
    slice, the list of [get] of every index of the range that the slice
    resolves to against the length of the view, in order. *)
Lemma tablerow_getitem_int_settled (base : list (string * member S))
    depth k w :
  (∀ self a w v, (super base "get" self a w).1 = ok v → settled v = true) →
  call (Datatypes.S (Datatypes.S depth)) (tablerow.cls base) "__getitem__"
       (Args [VInt k] []) w
  = call (Datatypes.S depth) (tablerow.cls base) "get" (Args [VInt k] []) w.
Proof.
  intros Hsettled. rewrite tablerow_getitem_int, wrapped_run.
  destruct (call _ _ "get" _ w) as [[?|v] w'] eqn:Hget; [done|].
  simpl. unfold rmap, rbind, ok.
  by rewrite (tablerow_get_fixed _ _ _ _ _ _ Hsettled Hget).
Qed.

Lemma tablerow_getitem_slice_settled (base : list (string * member S))
    depth start stop step w :
  (∀ self a w v, (super base "get" self a w).1 = ok v → settled v = true) →
  let view := call (Datatypes.S depth) (tablerow.cls base) in
  call (Datatypes.S (Datatypes.S depth)) (tablerow.cls base) "__getitem__"
       (Args [VSlice start stop step] []) w
  = (do n <- view "__len__" (Args [] []);
     do n <- lift (len_of n);
     do t <- lift (py.slice_indices start stop step n);
     do rows <- mapM (λ irow, view "get" (Args [VInt irow] []))
                     (range_of t);
     ret (VList rows))%M w.
Proof.
  intros Hsettled view. rewrite tablerow_getitem_slice. fold view.
  unfold wrapped, bind, lift, ret.
  destruct (view "__len__" _ w) as [[?|n] w1]; [done|].
  destruct (len_of n) as [?|n']; [done|].
  destruct (py.slice_indices start stop step n') as [?|t]; [done|].
  destruct (mapM _ (range_of t) w1) as [[?|rows] w2] eqn:Hrows; [done|].
  assert (map recursive_transpose rows = rows) as Hfixed.
  { eapply mapM_fixed; [|exact Hrows].
    intros irow w0 v w0' Hget. cbv beta in Hget. unfold view in Hget.
    exact (tablerow_get_fixed _ _ _ _ _ _ Hsettled Hget). }
  simpl. by rewrite Hfixed.
Qed.

End view_facts.

(** C6, at the same row and at a column of such cells: indexing and [get]
    give different values.  [view[1]] is not [view.get(1)], and [view[1:3]]
    is not [[view.get(1), view.get(2)]]: the cell comes with shape (3, 1)
    from one and with shape (1, 3) from the other. *)
Theorem getitem_differs_from_get :
  let view := call 2 (tablerow.cls examples.rows_base) in
  let col := call 2 (tablecolumn.cls examples.table_of_cells "DATA") in
  let cell := examples.fortran_1x3 in
  let w := examples.nowhere in
  view "__getitem__" (Args [VInt 1] []) w
    = (ok (VDict [("DATA", VArr (np.T cell))]), w)
  ∧ view "get" (Args [VInt 1] []) w = (ok (VDict [("DATA", VArr cell)]), w)
  ∧ view "__getitem__" (Args [VSlice (Some 1) (Some 3) None] []) w
    = (ok (VList [VDict [("DATA", VArr (np.T cell))];
                  VDict [("DATA", VArr (np.T cell))]]), w)
  ∧ view "get" (Args [VInt 2] []) w = (ok (VDict [("DATA", VArr cell)]), w)
  ∧ col "__getitem__" (Args [VInt 1] []) w = (ok (VArr cell), w)
  ∧ col "get" (Args [VInt 1] []) w = (ok (VArr (np.T cell)), w)
  ∧ col "__getitem__" (Args [VSlice (Some 1) (Some 3) None] []) w
    = (ok (VList [VArr cell; VArr cell]), w)
  ∧ np.T cell ≠ cell.
Proof. by vm_compute. Qed.

(** C7 as the code has it: [tablecolumn.get] asks the owning table for the
    cell and hands on what comes back.  It raises exactly when [getcell]
    raises, and then the same exception; there is no check of its own. *)
Theorem tablecolumn_get_forwards {S} (_table : obj S) (col : string)
    (depth : nat) (irow : value) (w : world S) :
  let r := _table "getcell" (Args [VStr col; irow] []) w in
  call (Datatypes.S depth) (tablecolumn.cls _table col) "get"
       (Args [irow] []) w
  = (rmap (λ v, recursive_transpose (recursive_transpose v)) r.1, r.2).
Proof.
  cbv zeta. rewrite tablecolumn_get_wrapped_twice, !wrapped_run. simpl.
  by destruct (_table "getcell" _ w) as [[e|v] w'].
Qed.

(** The column view of a table that has been closed still answers. *)
Lemma tablecolumn_get_after_close :
  let col := call 1 (tablecolumn.cls examples.stale_table "DATA") in
  (do _ <- examples.stale_table "close" (Args [] []);
   col "get" (Args [VInt 0] []))%M (World [] true)
  = (ok (VInt 42), World [] false)
  ∧ ∀ msg w,
      (do _ <- examples.stale_table "close" (Args [] []);
       col "get" (Args [VInt 0] []))%M (World [] true)
      ≠ (raise (Exn "ClosedHandleError" msg), w).
Proof. split; [by vm_compute|]. intros msg w. by vm_compute. Qed.

(** ** The table facade *)

Section table_facts.
Context {S : Type} (e : casatools.table S).

(** The call [getcellslice("DATA", 3, [0, 1], [2, 3], incr=2)] reaches the
    engine as a call for row 0, without a stride. *)
Example getcellslice_forward_row_3 :
  table.getcellslice_forward "DATA" (table.Scalar 3) (table.Seq [0; 1])
                             (table.Seq [2; 3]) (table.Scalar 2)
  = ok (Args [] [("columnname", VStr "DATA");
                 ("rownr", VInt 0);
                 ("blc", VList [VInt 1; VInt 0]);
                 ("trc", VList [VInt 3; VInt 2])]).
Proof. reflexivity. Qed.

(** C3 as the code has it: the bounds are reversed, but the engine is
    always asked for row 0 and is never given a stride.  The call either
    stops with a TypeError before it reaches the engine (a scalar row number
    or stride next to a lower bound that has no length), or it is the
    engine's [getcellslice] with these four keywords. *)
Theorem getcellslice_drops_rownr_and_incr (self : value) (columnname : string)
    (rownr blc trc incr : table.index_arg) (w : world S) :
  table.getcellslice e self columnname rownr blc trc incr w
  = (raise TypeError, w)
  ∨ table.getcellslice e self columnname rownr blc trc incr w
    = wrapped (casatools.getcellslice e self
                 (Args [] [("columnname", VStr columnname);
                           ("rownr", VInt 0);
                           ("blc", table.to_value (table.reversed blc));
                           ("trc", table.to_value (table.reversed trc))])) w.
Proof.
  unfold table.getcellslice, table.getcellslice_def,
    table.getcellslice_forward.
  destruct rownr as [r|rs], blc as [b|bs], incr as [i|is_]; simpl;
    try (by left);
    right; unfold wrapped, bind, lift, ret; simpl;
    by destruct (casatools.getcellslice e self _ w) as [[?|?] ?].
Qed.

(** [table("my.ms", readonly=False)] opens the table with [nomodify=True];
    a [nomodify] keyword of the caller's is a TypeError. *)
Example init_forward_readonly_false :
  table.init_forward (Args [VStr "my.ms"] [("readonly", VBool false)])
  = ok (Args [] [("tablename", VStr "my.ms");
                 ("lockoptions", VDict []);
                 ("nomodify", VBool true)])
  ∧ table.init_forward (Args [VStr "my.ms"] [("nomodify", VBool false)])
    = raise TypeError.
Proof. split; reflexivity. Qed.

Lemma rmtree_gone (path : string) (w : world S) v w' :
  rmtree path w = (ok v, w') → path ∉ fs w'.
Proof.
  unfold rmtree. case_bool_decide; [|done]. intros [= _ <-]. simpl.
  rewrite list_elem_of_filter. intros [Hbelow _]. revert Hbelow.
  unfold below. by rewrite bool_decide_true.
Qed.

(** C4 as the code has it, for a handle that is not open and an engine
    whose [name] has no effects.  The query runs against a shallow copy
    named after the table.  When the call returns, every step has been
    taken in its order: the copy made, the query run against it, the result
    wrapped, the copy closed and its directory removed, so that it is not on
    the file system afterwards.  When the query raises, the call raises the
    same exception there and then, in the world the query left: nothing
    closes or removes the copy. *)
Theorem taql_removes_copy_on_return (self : value) (taqlcommand : string)
    (w w1 : world S) (n n' : string) :
  (∀ o w0, (casatools.name e o w0).2 = w0) →
  casatools.name e self w = (ok n, w) →
  casatools.isopened e self n w = (ok false, w1) →
  casatools.name e self w1 = (ok n', w1) →
  let tablename := n' +:+ "_copy" in
  let tb_query :=
    py.replace "$gtable" tablename
      (py.replace "$mtable" tablename taqlcommand) in
  (∀ v w', table.taql e self taqlcommand w = (ok v, w') →
     ∃ copied w2 swig w3 tb_query_to w4 closed w5,
       casatools.copy e self tablename false false w1 = (ok copied, w2)
       ∧ casatools.swig_taql e (recursive_transpose copied) tb_query w2
         = (ok swig, w3)
       ∧ table._wrap_table e swig w3 = (ok tb_query_to, w4)
       ∧ casatools.close e (recursive_transpose copied) w4 = (ok closed, w5)
       ∧ rmtree tablename w5 = (ok VNone, w')
       ∧ v = recursive_transpose tb_query_to
       ∧ tablename ∉ fs w')
  ∧ (∀ copied w2 nf exn w3,
       casatools.copy e self tablename false false w1 = (ok copied, w2) →
       (casatools.name e (recursive_transpose copied) w2).1 = ok nf →
       casatools.swig_taql e (recursive_transpose copied) tb_query w2
       = (raise exn, w3) →
       table.taql e self taqlcommand w = (raise exn, w3)).
Proof.
  intros Hname H1 H2 H3 tablename tb_query.
  unfold table.taql, table.taql_def, wrapped, bind, ret.
  unfold ok, raise in *.
  rewrite H1. cbn beta iota. rewrite H2. cbn beta iota. cbn [negb].
  cbn beta iota. rewrite H3. cbn beta iota. fold tablename.
  split.
  - intros v w'.
    destruct (casatools.copy e self tablename false false w1)
      as [[?|copied] w2]; [done|]. simpl. fold tb_query.
    pose proof (Hname (recursive_transpose copied) w2) as Hw2.
    destruct (casatools.name e _ w2) as [[?|?] w2']; [done|].
    simpl in Hw2. subst w2'.
    destruct (casatools.swig_taql e _ tb_query w2) as [[?|swig] w3] eqn:Hq;
      [done|].
    destruct (table._wrap_table e swig w3) as [[?|tb_query_to] w4] eqn:Hwrap;
      [done|].
    destruct (casatools.close e _ w4) as [[?|closed] w5] eqn:Hclose; [done|].
    destruct (rmtree tablename w5) as [[?|removed] w6] eqn:Hrm; [done|].
    pose proof (rmtree_gone _ _ _ _ Hrm) as Hgone.
    assert (removed = VNone) as ->.
    { unfold rmtree, ok, raise in Hrm. case_bool_decide; by simplify_eq. }
    pose proof (Hname tb_query_to w6) as Hw6.
    destruct (casatools.name e tb_query_to w6) as [[?|?] w7]; [done|].
    simpl in Hw6. subst w7. intros [= <- <-].
    by exists copied, w2, swig, w3, tb_query_to, w4, closed, w5.
  - intros copied w2 nf exn w3 Hcopy Hnf Htaql.
    rewrite Hcopy. simpl. fold tb_query.
    pose proof (Hname (recursive_transpose copied) w2) as Hw2.
    destruct (casatools.name e _ w2) as [[?|?] w2']; [done|].
    simpl in Hw2. subst w2'. by rewrite Htaql.
Qed.

End table_facts.

Lemma taql_removes_copy_on_return_witness :
  table.taql examples.toy (VObj 0) "select from $mtable" examples.closed_ms
  = (ok (VObj 3),
     World ["my.ms"]
       (examples.Toy ["my.ms"; "my.ms_copy"; "query result"; "query result"]
                     []))
  ∧ "my.ms_copy" ∉ fs (table.taql examples.toy (VObj 0) "select from $mtable"
                         examples.closed_ms).2.
Proof.
  split; [reflexivity|].
  destruct (proj1 (taql_removes_copy_on_return examples.toy (VObj 0)
                     "select from $mtable" examples.closed_ms
                     examples.closed_ms "my.ms" "my.ms"
                     ltac:(reflexivity) ltac:(reflexivity)
                     ltac:(reflexivity) ltac:(reflexivity))
              (VObj 3) _ ltac:(reflexivity))
    as (? & ? & ? & ? & ? & ? & ? & ? & _ & _ & _ & _ & _ & _ & Hgone).
  exact Hgone.
Defined.

(** C4 fails where the query fails: the copy is still on disk, and open. *)
Lemma taql_leaves_copy_on_failure :
  table.taql examples.toy (VObj 0) "drop $mtable" examples.closed_ms
  = (raise (Exn "RuntimeError" "drop my.ms_copy"),
     World ["my.ms"; "my.ms_copy"]
       (examples.Toy ["my.ms"; "my.ms_copy"] ["my.ms_copy"]))
  ∧ "my.ms_copy" ∈ fs (table.taql examples.toy (VObj 0) "drop $mtable"
                         examples.closed_ms).2
  ∧ "my.ms_copy" ∉ fs examples.closed_ms.
Proof.
  split; [reflexivity|]. split; apply (bool_decide_unpack _); reflexivity.
Qed.

(** ** Shape strings *)

Lemma string_app_cons (c : ascii) (s1 s2 : string) :
  String c s1 +:+ s2 = String c (s1 +:+ s2).
Proof. reflexivity. Qed.

Lemma string_app_nil_l (s : string) : "" +:+ s = s.
Proof. reflexivity. Qed.

Lemma string_app_assoc (s1 s2 s3 : string) :
  (s1 +:+ s2) +:+ s3 = s1 +:+ (s2 +:+ s3).
Proof.
  induction s1 as [|c s1 IH]; [done|]. rewrite !string_app_cons. by f_equal.
Qed.

Lemma string_app_nil_r (s : string) : s +:+ "" = s.
Proof.
  induction s as [|c s IH]; [done|]. rewrite string_app_cons. by f_equal.
Qed.

Lemma all_digits_app (s1 s2 : string) :
  all_digits (s1 +:+ s2) = all_digits s1 && all_digits s2.
Proof.
  induction s1 as [|c s1 IH]; [done|]. rewrite string_app_cons. simpl.
  rewrite IH. by destruct (py.is_digit c).
Qed.

Lemma digits_value_from_app (v : N) (s1 s2 : string) :
  py.digits_value_from v (s1 +:+ s2)
  = py.digits_value_from (py.digits_value_from v s1) s2.
Proof.
  revert v. induction s1 as [|c s1 IH]; intros v; [done|].
  rewrite string_app_cons. simpl. apply IH.
Qed.

Lemma pretty_N_char_digit (m : N) :
  (m < 10)%N →
  py.is_digit (pretty_N_char m) = true
  ∧ py.digit_value (pretty_N_char m) = m
  ∧ (m ≠ 0%N → pretty_N_char m ≠ "0"%char).
Proof.
  intros Hm.
  assert (m = 0 ∨ m = 1 ∨ m = 2 ∨ m = 3 ∨ m = 4 ∨ m = 5 ∨ m = 6
          ∨ m = 7 ∨ m = 8 ∨ m = 9)%N as Hcases by lia.
  repeat (destruct Hcases as [->|Hcases]; [by vm_compute|]).
  subst. by vm_compute.
Qed.

Lemma pretty_N_go_digits (x : N) (s : string) :
  pretty_N_go x s = digits x +:+ s.
Proof.
  unfold digits. revert s. induction (N.lt_wf_0 x) as [x _ IH]. intros s.
  destruct (decide (x = 0)%N) as [->|Hx]; [done|].
  assert (x `div` 10 < x)%N as Hlt by (apply N.div_lt; lia).
  rewrite !(pretty_N_go_step x) by lia.
  rewrite (IH _ Hlt (String _ s)), (IH _ Hlt (String _ "")).
  by rewrite string_app_assoc.
Qed.

Lemma digits_step (x : N) :
  (0 < x)%N →
  digits x = digits (x `div` 10) +:+ String (pretty_N_char (x `mod` 10)) "".
Proof.
  intros Hx. unfold digits at 1. rewrite pretty_N_go_step by done.
  apply pretty_N_go_digits.
Qed.

Lemma digits_all_digits (x : N) : all_digits (digits x) = true.
Proof.
  induction (N.lt_wf_0 x) as [x _ IH].
  destruct (decide (x = 0)%N) as [->|Hx]; [done|].
  rewrite digits_step, all_digits_app by lia.
  rewrite IH by (apply N.div_lt; lia). simpl.
  destruct (pretty_N_char_digit (x `mod` 10)) as (-> & _); [|done].
  apply N.mod_lt. lia.
Qed.

Lemma digits_head (x : N) :
  (0 < x)%N → ∃ c ds, digits x = String c ds ∧ c ≠ "0"%char.
Proof.
  induction (N.lt_wf_0 x) as [x _ IH]. intros Hx.
  rewrite digits_step by done.
  destruct (decide (x `div` 10 = 0)%N) as [Hdiv|Hdiv].
  - rewrite Hdiv. simpl. eexists _, _. split; [done|].
    assert (x < 10)%N as Hsmall by (by apply N.div_small_iff).
    apply pretty_N_char_digit; [apply N.mod_lt; lia|].
    rewrite N.mod_small by done. lia.
  - assert (x `div` 10 < x)%N as Hlt by (apply N.div_lt; lia).
    assert (0 < x `div` 10)%N as Hpos by (by apply N.neq_0_lt_0).
    destruct (IH _ Hlt Hpos) as (c & ds & -> & Hc).
    rewrite string_app_cons. eauto.
Qed.

Lemma digits_value_from_digits (x v : N) :
  ∃ k, py.digits_value_from v (digits x) = (v * 10 ^ k + x)%N.
Proof.
  revert v. induction (N.lt_wf_0 x) as [x _ IH]. intros v.
  destruct (decide (x = 0)%N) as [->|Hx].
  { exists 0%N. simpl. lia. }
  rewrite digits_step, digits_value_from_app by lia.
  destruct (IH (x `div` 10)%N) with (v := v) as [k ->].
  { apply N.div_lt; lia. }
  exists (k + 1)%N. simpl.
  destruct (pretty_N_char_digit (x `mod` 10)) as (_ & -> & _).
  { apply N.mod_lt. lia. }
  rewrite N.pow_add_r. pose proof (N.div_mod x 10). lia.
Qed.

Lemma digits_value_pretty (n : N) : py.digits_value (pretty n) = Some n.
Proof.
  unfold pretty, pretty_N. case_decide as Hn; [by subst|].
  fold (digits n). destruct (digits_head n) as (c & ds & Hds & Hc); [lia|].
  unfold py.digits_value. rewrite Hds.
  rewrite bool_decide_true by done. simpl orb. cbv iota.
  rewrite <- Hds. destruct (digits_value_from_digits n 0) as [k ->].
  done.
Qed.

Lemma pretty_N_digits (n : N) :
  all_digits (pretty n) = true ∧ pretty n ≠ "".
Proof.
  unfold pretty, pretty_N. case_decide as Hn; [done|]. fold (digits n).
  split; [apply digits_all_digits|].
  destruct (digits_head n) as (c & ds & -> & _); [lia|done].
Qed.

(** The lexer reads a run of digits into the number it is collecting. *)
Lemma lex_digits (ds cur rest : string) :
  all_digits ds = true → py.lex cur (ds +:+ rest) = py.lex (cur +:+ ds) rest.
Proof.
  revert cur. induction ds as [|c ds IH]; intros cur Hds.
  { by rewrite string_app_nil_r. }
  simpl in Hds. apply andb_true_iff in Hds as [Hc Hds].
  rewrite string_app_cons. simpl. rewrite Hc. rewrite IH by done.
  by rewrite string_app_assoc.
Qed.

Lemma flush_nonempty (cur : string) (ts : list py.token) :
  cur ≠ "" → py.flush cur ts = py.TNum cur :: ts.
Proof. intros Hcur. unfold py.flush. by rewrite bool_decide_false. Qed.

(** Lexing an integer that is followed by a comma or a closing bracket. *)
Lemma lex_int (z : Z) (c : ascii) (t : py.token) (rest : string)
    (ts : list py.token) :
  py.is_digit c = false → py.is_blank c = false → py.punct c = Some t →
  py.lex "" rest = Some ts →
  py.lex "" (py.str_int z +:+ String c rest) = Some (int_tokens z ++ t :: ts).
Proof.
  intros Hdigit Hblank Hpunct Hrest.
  assert (∀ n : N, py.lex "" (pretty n +:+ String c rest)
                   = Some (py.TNum (pretty n) :: t :: ts)) as Hnat.
  { intros n. destruct (pretty_N_digits n) as [Hds Hne].
    rewrite lex_digits by done. rewrite string_app_nil_l. simpl.
    rewrite Hdigit, Hblank, Hpunct, Hrest. simpl.
    by rewrite flush_nonempty. }
  unfold py.str_int, int_tokens, pretty, pretty_Z.
  destruct z as [|p|p]; simpl.
  - apply (Hnat 0%N).
  - apply (Hnat (N.pos p)).
  - rewrite string_app_nil_l.
    change (pretty p) with (pretty (N.pos p)).
    by rewrite (Hnat (N.pos p)).
Qed.

Lemma lex_elems (l : list Z) :
  py.lex "" (py.join ", " (map py.str_int l) +:+ "]")
  = Some (elems_tokens l).
Proof.
  induction l as [|z l IH]; [done|].
  destruct l as [|z' l].
  - simpl. by apply lex_int.
  - change (py.join ", " (map py.str_int (z :: z' :: l)))
      with (py.str_int z +:+ ", " +:+ py.join ", " (map py.str_int (z' :: l))).
    rewrite !string_app_assoc.
    change (elems_tokens (z :: z' :: l))
      with (int_tokens z ++ py.TComma :: elems_tokens (z' :: l)).
    apply lex_int; [done..|].
    change (py.flush "" <$> py.lex "" (py.join ", " (map py.str_int (z' :: l))
                                       +:+ "]")
            = Some (elems_tokens (z' :: l))).
    by rewrite IH.
Qed.

Lemma parse_elems_tokens (l : list Z) :
  py.parse_elems (elems_tokens l) = Some l.
Proof.
  induction l as [|z l IH]; [done|].
  assert (Z.of_N (Z.abs_N z) = Z.abs z) as Habs by lia.
  destruct l as [|z' l].
  - simpl. unfold int_tokens. case_bool_decide; simpl;
      rewrite digits_value_pretty; simpl; f_equal; f_equal; lia.
  - change (elems_tokens (z :: z' :: l))
      with (int_tokens z ++ py.TComma :: elems_tokens (z' :: l)).
    unfold int_tokens. case_bool_decide; simpl;
      rewrite digits_value_pretty; simpl;
      change (match l with
              | [] => int_tokens z' ++ [py.TRbr]
              | _ :: _ => int_tokens z' ++ py.TComma :: elems_tokens l
              end) with (elems_tokens (z' :: l));
      rewrite IH; simpl; f_equal; f_equal; lia.
Qed.

(** Reading back what [str] writes for a list of integers. *)
Lemma literal_eval_str_int_list (l : list Z) :
  py.literal_eval (py.str_int_list l) = Some l.
Proof.
  unfold py.literal_eval, py.str_int_list.
  rewrite string_app_cons, string_app_nil_l. simpl.
  rewrite lex_elems. simpl. apply parse_elems_tokens.
Qed.

Section shape_facts.
Context {S : Type} (e : casatools.table S).

Lemma rmapM_reversed_shape_text (texts : list string) (shapes : list (list Z)) :
  Forall2 (λ text shape, py.literal_eval text = Some shape) texts shapes →
  rmapM table.reversed_shape_text texts
  = ok (map (λ shape, py.str_int_list (reverse shape)) shapes).
Proof.
  induction 1 as [|text shape texts shapes Htext _ IH]; [done|].
  simpl. unfold table.reversed_shape_text at 1. rewrite Htext. simpl.
  by rewrite IH.
Qed.

Lemma recursive_transpose_strings (l : list string) :
  recursive_transpose (VList (map VStr l)) = VList (map VStr l).
Proof. simpl. f_equal. induction l as [|x l IH]; simpl; by f_equal. Qed.

(** C8: every list of integers, written as Python writes it, reads back as
    that list; and where the engine gives, column by column, a text that
    reads as the native shape, [getcolshapestring] returns, entry for
    entry, the reversed shape written as Python writes a list: ["[10, 5]"]
    for the native ["[5, 10]"]. *)
Theorem getcolshapestring_reverses :
  (∀ shape, py.literal_eval (py.str_int_list shape) = Some shape)
  ∧ ∀ (self : value) (a : args) (w w' : world S) (texts : list string)
      (shapes : list (list Z)),
      casatools.getcolshapestring e self a w = (ok texts, w') →
      Forall2 (λ text shape, py.literal_eval text = Some shape)
              texts shapes →
      table.getcolshapestring e self a w
      = (ok (VList (map (λ shape, VStr (py.str_int_list (reverse shape)))
                        shapes)), w').
Proof.
  split; [apply literal_eval_str_int_list|].
  intros self a w w' texts shapes Hengine Htexts.
  unfold table.getcolshapestring, table.getcolshapestring_def, wrapped,
    bind, lift, ret. unfold ok in *.
  rewrite Hengine. cbn beta iota.
  rewrite (rmapM_reversed_shape_text texts shapes Htexts).
  unfold ok. cbn beta iota. rewrite map_map.
  rewrite <- (map_map (λ shape, py.str_int_list (reverse shape)) VStr).
  by rewrite recursive_transpose_strings.
Qed.

End shape_facts.

Lemma getcolshapestring_reverses_witness :
  table.getcolshapestring examples.toy (VObj 0) (Args [] [])
                          examples.closed_ms
  = (ok (VList [VStr "[10, 5]"; VStr "[4]"]), examples.closed_ms).
Proof.
  apply (proj2 (getcolshapestring_reverses examples.toy) (VObj 0) (Args [] [])
           examples.closed_ms examples.closed_ms
           ["[5, 10]"; "[4]"] [[5; 10]; [4]]).
  - reflexivity.
  - repeat constructor.
Defined.

(** ** The image facade *)

Section dict_facts.
Context {A : Type}.
Implicit Types (d : list (string * A)).

Lemma alist_get_None key d : alist_get key d = None ↔ key ∉ alist_keys d.
Proof.
  unfold alist_keys. induction d as [|[k v] d IH]; csimpl.
  - split; [|done]. intros _. apply not_elem_of_nil.
  - rewrite not_elem_of_cons. case_decide as Hk.
    + split; [done|]. intros [Hne _]. by destruct Hne.
    + rewrite IH. split; [|by intros [_ ?]]. intros ?. split; [|done].
      intros ->. done.
Qed.

Lemma alist_keys_set key v d :
  alist_keys (alist_set key v d)
  = if decide (key ∈ alist_keys d) then alist_keys d
    else alist_keys d ++ [key].
Proof.
  unfold alist_keys. induction d as [|[k v'] d IH]; csimpl.
  - done.
  - destruct (decide (k = key)) as [->|Hk]; csimpl.
    + destruct (decide (key ∈ key :: d.*1)) as [Hin|Hin]; [done|].
      destruct Hin. apply list_elem_of_here.
    + rewrite IH.
      destruct (decide (key ∈ d.*1)) as [Hin|Hin],
               (decide (key ∈ k :: d.*1)) as [Hin'|Hin']; try done.
      * destruct Hin'. by apply list_elem_of_further.
      * apply elem_of_cons in Hin' as [->|?]; done.
Qed.

Lemma alist_set_NoDup key v d :
  NoDup (alist_keys d) → NoDup (alist_keys (alist_set key v d)).
Proof.
  intros Hd. rewrite alist_keys_set. case_decide; [done|].
  apply NoDup_app. split_and!; [done| |apply NoDup_singleton].
  intros k Hk ->%list_elem_of_singleton. done.
Qed.

Lemma alist_get_pop key k d :
  alist_get key (alist_pop k d)
  = if decide (key = k) then None else alist_get key d.
Proof.
  unfold alist_pop. induction d as [|[k' v] d IH]; simpl.
  - by case_decide.
  - rewrite filter_cons. simpl. destruct (decide (k' ≠ k)) as [Hne|Heq]; simpl.
    + rewrite IH. repeat case_decide; by simplify_eq.
    + apply dec_stable in Heq. subst k'. rewrite IH.
      repeat case_decide; by simplify_eq.
Qed.

Lemma alist_get_update_other key d d2 :
  key ∉ alist_keys d2 → alist_get key (alist_update d d2) = alist_get key d.
Proof.
  unfold alist_update, alist_keys. revert d.
  induction d2 as [|[k v] d2 IH]; intros d Hkey; csimpl in *; [done|].
  apply not_elem_of_cons in Hkey as [Hne Hkey].
  rewrite IH by done. rewrite alist_get_set. by rewrite decide_False.
Qed.

Lemma alist_get_update key v d d2 :
  NoDup (alist_keys d2) →
  alist_get key d2 = Some v →
  alist_get key (alist_update d d2) = Some v.
Proof.
  revert d. induction d2 as [|[k v'] d2 IH]; intros d Hnd Hget; [done|].
  unfold alist_keys in Hnd. csimpl in *. apply NoDup_cons in Hnd as [Hk Hnd].
  change (alist_update d ((k, v') :: d2))
    with (alist_update (alist_set k v' d) d2).
  case_decide; simplify_eq.
  - rewrite alist_get_update_other by done.
    rewrite alist_get_set. by rewrite decide_True.
  - by apply IH.
Qed.

End dict_facts.

Lemma alist_get_recursive_transpose key (d : dict) :
  alist_get key (map (λ '(k, v), (k, recursive_transpose v)) d)
  = recursive_transpose <$> alist_get key d.
Proof.
  induction d as [|[k v] d IH]; simpl; [done|]. by case_decide.
Qed.

Section loop_invariant.
Context {A B : Type} (body : B → A → result B).

(** A loop that never raises keeps an invariant over the elements it has
    visited. *)
Lemma rfold_invariant (Inv : list A → B → Prop) (l done : list A) (acc : B) :
  Inv done acc →
  (∀ done' x acc', Inv done' acc' → x ∈ l →
     ∃ acc'', body acc' x = ok acc'' ∧ Inv (done' ++ [x]) acc'') →
  ∃ acc', rfold body acc l = ok acc' ∧ Inv (done ++ l) acc'.
Proof.
  revert done acc. induction l as [|x l IH]; intros done acc Hacc Hstep.
  { exists acc. by rewrite app_nil_r. }
  destruct (Hstep done x acc Hacc) as (acc1 & Hx & Hacc1).
  { apply list_elem_of_here. }
  simpl. rewrite Hx. simpl.
  destruct (IH (done ++ [x]) acc1 Hacc1) as (acc2 & Hl & Hacc2).
  { intros done' y acc' Hinv Hy. apply Hstep; [done|].
    by apply list_elem_of_further. }
  exists acc2. split; [done|]. by rewrite <- app_assoc in Hacc2.
Qed.

End loop_invariant.

Lemma star_inj (k1 k2 : Z) : image.star k1 = image.star k2 → k1 = k2.
Proof.
  unfold image.star, py.str_int. intros [= Heq]. by apply (inj pretty).
Qed.

Lemma star_not_beams (k : Z) : image.star k ≠ "beams".
Proof. unfold image.star. simpl. discriminate. Qed.

Lemma linear_index_inj (nchan c p c' p' : Z) :
  0 ≤ c < nchan → 0 ≤ c' < nchan →
  nchan * p + c = nchan * p' + c' → c = c' ∧ p = p'.
Proof.
  intros Hc Hc' Heq.
  assert (p = p') as ->; [|lia].
  destruct (Z.lt_trichotomy p p') as [?|[?|?]]; [nia|done|nia].
Qed.

Section flatten.
Context (perplanebeams : dict) (nchan npol : Z) (beam : Z → Z → value).
Context (Hbeam : ∀ c p, 0 ≤ c < nchan → 0 ≤ p < npol →
           ∃ row, alist_get (image.star c) perplanebeams = Some row
                  ∧ image.getitem row (image.star p) = ok (beam c p)).

Local Abbreviation flat_upto := (flat_upto nchan npol beam).

Lemma flat_upto_set P flat c p :
  0 ≤ c < nchan → 0 ≤ p < npol →
  flat_upto P flat →
  flat_upto (λ c' p', P c' p' ∨ (c' = c ∧ p' = p))
            (alist_set (image.star (nchan * p + c)) (beam c p) flat).
Proof.
  intros Hc Hp (Hget & Hkeys & Hnd). split_and!.
  - intros c' p' HP Hc' Hp'. rewrite alist_get_set. case_decide as Heq.
    + apply star_inj, linear_index_inj in Heq as [-> ->]; done.
    + destruct HP as [HP|[-> ->]]; [by apply Hget|done].
  - intros key v. rewrite alist_get_set. case_decide as Heq; [|apply Hkeys].
    intros _. eauto.
  - by apply alist_set_NoDup.
Qed.

Lemma flat_upto_ext P Q flat :
  (∀ c p, 0 ≤ c < nchan → 0 ≤ p < npol → Q c p → P c p) →
  flat_upto P flat → flat_upto Q flat.
Proof.
  intros HPQ (Hget & Hkeys & Hnd). split_and!; [|done..].
  intros c p HQ Hc Hp. apply Hget; [|done..]. by apply HPQ.
Qed.

Lemma flatten_loops_ok :
  ∃ flat, image.flatten_loops (VDict perplanebeams) (VInt nchan) (VInt npol)
          = ok flat
          ∧ flat_upto (λ _ _, True) flat.
Proof.
  unfold image.flatten_loops. simpl.
  destruct (rfold_invariant
    (λ flat c,
       rbind (image.range (VInt npol)) (λ ps,
         rfold (λ flat p,
           rbind (image.getitem (VDict perplanebeams) (image.star c)) (λ row,
             rbind (image.getitem row (image.star p)) (λ beam,
               ok (alist_set (image.star (image.times (VInt nchan) p + c))
                             beam flat)))) flat ps))
    (λ done flat, flat_upto (λ c _, c ∈ done) flat)
    (seqZ 0 nchan) [] []) as (flat & Hflat & Hinv).
  { split_and!; [by intros c p ?%elem_of_nil|done|constructor]. }
  { intros done c flat Hinv Hc%elem_of_seqZ. simpl.
    destruct (rfold_invariant
      (λ flat p,
         rbind (image.getitem (VDict perplanebeams) (image.star c)) (λ row,
           rbind (image.getitem row (image.star p)) (λ beam,
             ok (alist_set (image.star (image.times (VInt nchan) p + c))
                           beam flat))))
      (λ seen flat, flat_upto (λ c' p', c' ∈ done ∨ (c' = c ∧ p' ∈ seen)) flat)
      (seqZ 0 npol) [] flat) as (flat' & Hflat' & Hinv').
    { eapply flat_upto_ext; [|exact Hinv].
      by intros c' p' _ _ [?|[_ ?%elem_of_nil]]. }
    { intros seen p flat1 Hinv1 Hp%elem_of_seqZ.
      destruct (Hbeam c p) as (row & Hrow & Hb); [lia..|].
      simpl. rewrite Hrow. simpl. rewrite Hb. simpl.
      eexists. split; [done|].
      apply (flat_upto_ext
               (λ c' p', (c' ∈ done ∨ c' = c ∧ p' ∈ seen) ∨ c' = c ∧ p' = p)).
      - intros c' p' _ _ [?|[-> Hin]]; [auto|].
        apply elem_of_app in Hin as [?|Hin]; [auto|].
        apply list_elem_of_singleton in Hin as ->. auto.
      - apply flat_upto_set; [lia..|exact Hinv1]. }
    exists flat'. split; [done|].
    eapply flat_upto_ext; [|exact Hinv'].
    simpl. intros c' p' _ Hp' Hin.
    apply elem_of_app in Hin as [?|Hin]; [auto|].
    apply list_elem_of_singleton in Hin as ->. right. split; [done|].
    apply elem_of_seqZ. lia. }
  exists flat. split; [done|].
  eapply flat_upto_ext; [|exact Hinv]. simpl. intros c p Hc _ _.
  apply elem_of_seqZ. lia.
Qed.

End flatten.

(** The method as the class body has it: the nested [beams] entry goes, and
    every plane sits at its linear index. *)
Lemma flatten_multibeam_def_ok (imageinfo ppb beams : dict) (nchan npol : Z)
    (beam : Z → Z → value) :
  alist_get "perplanebeams" imageinfo = Some (VDict ppb) →
  alist_get "beams" ppb = Some (VDict beams) →
  alist_get "nChannels" ppb = Some (VInt nchan) →
  alist_get "nStokes" ppb = Some (VInt npol) →
  (∀ c p, 0 ≤ c < nchan → 0 ≤ p < npol →
     ∃ row, alist_get (image.star c) beams = Some row
            ∧ image.getitem row (image.star p) = ok (beam c p)) →
  ∃ ppb',
    image._flatten_multibeam_def imageinfo
    = ok (alist_set "perplanebeams" (VDict ppb') imageinfo)
    ∧ alist_get "beams" ppb' = None
    ∧ ∀ c p, 0 ≤ c < nchan → 0 ≤ p < npol →
        alist_get (image.star (nchan * p + c)) ppb' = Some (beam c p).
Proof.
  intros Hppb Hbeams Hnchan Hnpol Hbeam.
  destruct (flatten_loops_ok beams nchan npol beam Hbeam)
    as (flat & Hflat & Hget & Hkeys & Hnd).
  exists (alist_update (alist_pop "beams" ppb) flat). split_and!.
  - unfold image._flatten_multibeam_def. rewrite Hppb. simpl.
    rewrite Hbeams, Hnchan, Hnpol. simpl. by rewrite Hflat.
  - rewrite alist_get_update_other.
    + rewrite alist_get_pop. by rewrite decide_True.
    + apply alist_get_None.
      destruct (alist_get "beams" flat) as [v|] eqn:Hb; [|done].
      destruct (Hkeys _ _ Hb) as [k Hk]. symmetry in Hk.
      by apply star_not_beams in Hk.
  - intros c p Hc Hp. apply alist_get_update; [done|]. by apply Hget.
Qed.

Section image_facts.
Context {S : Type} (e : casatools.image S).

(** C5: for an image whose summary has per-plane beams for [nchan] channels
    and [npol] polarizations, each beam a plain record that the normalizer
    leaves as it is, [info()] returns the summary under ['imageinfo'] with
    the plane of channel [c] and polarization [p] under the key
    ["*" + str(nchan * p + c)] of ['perplanebeams'], and without the nested
    ['beams'] entry. *)
Theorem info_flattens_beams (self : value) (w w1 w2 w3 : world S)
    (summary ppb beams : dict) (nchan npol : Z) (beam : Z → Z → value)
    (coordinates miscinfo : value) :
  casatools.summary e self w = (ok summary, w1) →
  casatools.coordsys_torecord e self w1 = (ok coordinates, w2) →
  casatools.miscinfo e self w2 = (ok miscinfo, w3) →
  alist_get "perplanebeams" summary = Some (VDict ppb) →
  alist_get "beams" ppb = Some (VDict beams) →
  alist_get "nChannels" ppb = Some (VInt nchan) →
  alist_get "nStokes" ppb = Some (VInt npol) →
  (∀ c p, 0 ≤ c < nchan → 0 ≤ p < npol →
     ∃ row, alist_get (image.star c) beams = Some (VDict row)
            ∧ alist_get (image.star p) row = Some (beam c p)
            ∧ recursive_transpose (beam c p) = beam c p) →
  ∃ imageinfo ppb' rest,
    image.info e self w
    = (ok (VDict (("imageinfo", VDict imageinfo) :: rest)), w3)
    ∧ alist_get "perplanebeams" imageinfo = Some (VDict ppb')
    ∧ alist_get "beams" ppb' = None
    ∧ ∀ c p, 0 ≤ c < nchan → 0 ≤ p < npol →
        alist_get (image.star (nchan * p + c)) ppb' = Some (beam c p).
Proof.
  intros Hsum Hco Hmi Hppb Hbeams Hnchan Hnpol Hbeam.
  set (rt_items :=
         map (λ '(key, v), (key, recursive_transpose v) : string * value)).
  destruct (flatten_multibeam_def_ok (rt_items summary) (rt_items ppb)
              (rt_items beams) nchan npol beam)
    as (ppb1 & Hdef & Hnobeams & Hplanes).
  { unfold rt_items. rewrite alist_get_recursive_transpose, Hppb.
    reflexivity. }
  { unfold rt_items. rewrite alist_get_recursive_transpose, Hbeams.
    reflexivity. }
  { unfold rt_items. rewrite alist_get_recursive_transpose, Hnchan.
    reflexivity. }
  { unfold rt_items. rewrite alist_get_recursive_transpose, Hnpol.
    reflexivity. }
  { intros c p Hc Hp. destruct (Hbeam c p Hc Hp) as (row & Hrow & Hb & Hfix).
    exists (recursive_transpose (VDict row)). split.
    - unfold rt_items. by rewrite alist_get_recursive_transpose, Hrow.
    - simpl. rewrite alist_get_recursive_transpose, Hb. simpl.
      by rewrite Hfix. }
  exists (rt_items (rt_items (alist_set "perplanebeams" (VDict ppb1)
                                (rt_items summary)))),
         (rt_items (rt_items ppb1)),
         [("coordinates", recursive_transpose coordinates);
          ("miscinfo", recursive_transpose (recursive_transpose miscinfo))].
  split_and!.
  - unfold image.info, image.info_def, image._flatten_multibeam, wrapped,
      bind, ret, lift, image.as_dict. unfold ok in *.
    rewrite Hsum. simpl. fold rt_items. rewrite Hdef. simpl.
    rewrite Hco, Hmi. done.
  - unfold rt_items. rewrite !alist_get_recursive_transpose.
    rewrite alist_get_set. by rewrite decide_True.
  - unfold rt_items. rewrite !alist_get_recursive_transpose.
    fold rt_items. by rewrite Hnobeams.
  - intros c p Hc Hp. unfold rt_items.
    rewrite !alist_get_recursive_transpose. fold rt_items.
    rewrite (Hplanes c p Hc Hp). simpl.
    destruct (Hbeam c p Hc Hp) as (_ & _ & _ & Hfix). by rewrite !Hfix.
Qed.

End image_facts.

Lemma info_flattens_beams_witness :
  ∃ imageinfo ppb' rest,
    image.info examples.image_3x2 VNone examples.nowhere
    = (ok (VDict (("imageinfo", VDict imageinfo) :: rest)), examples.nowhere)
    ∧ alist_get "perplanebeams" imageinfo = Some (VDict ppb')
    ∧ alist_get "beams" ppb' = None
    ∧ alist_get "*4" ppb' = Some (examples.beam 1 1).
Proof.
  destruct (info_flattens_beams examples.image_3x2 VNone
              examples.nowhere examples.nowhere examples.nowhere
              examples.nowhere examples.summary_3x2
              [("beams", VDict [("*0", examples.plane 0);
                                ("*1", examples.plane 1);
                                ("*2", examples.plane 2)]);
               ("nChannels", VInt 3);
               ("nStokes", VInt 2)]
              [("*0", examples.plane 0);
               ("*1", examples.plane 1);
               ("*2", examples.plane 2)]
              3 2 examples.beam (VDict []) (VDict []))
    as (imageinfo & ppb' & rest & Hinfo & Hppb & Hbeams & Hplanes);
    try reflexivity.
  - intros c p Hc Hp.
    assert (c = 0 ∨ c = 1 ∨ c = 2) as [->|[->| ->]] by lia;
      assert (p = 0 ∨ p = 1) as [->| ->] by lia;
      eexists; split_and!; reflexivity.
  - exists imageinfo, ppb', rest. split_and!; [done..|].
    apply (Hplanes 1 1); lia.
Defined.

(** ** The coordinate system view *)

Section loops.
Context {A B : Type}.

(** A loop that appends one result per element is a map. *)
Lemma rfold_append (f : A → result B) (acc : list B) (l : list A) :
  rfold (λ acc x, rbind (f x) (λ y, ok (acc ++ [y]))) acc l
  = rmap (app acc) (rmapM f l).
Proof.
  revert acc. induction l as [|x l IH]; intros acc; simpl.
  { unfold rmap, rbind, ok. by rewrite app_nil_r. }
  destruct (f x) as [e|y]; simpl; [done|].
  rewrite IH. unfold rmap, rbind, ok.
  destruct (rmapM f l) as [e|ys]; simpl; [done|].
  by rewrite <- app_assoc.
Qed.

Lemma rmapM_ok (f : A → result B) (g : A → B) (l : list A) :
  Forall (λ x, f x = ok (g x)) l → rmapM f l = ok (map g l).
Proof.
  induction 1 as [|x l Hx _ IH]; simpl; [done|].
  by rewrite Hx, IH.
Qed.

End loops.

Lemma index_in_range {A} (l : list A) (d : A) (i : Z) :
  0 ≤ i < Z.of_nat (length l) →
  py.index l i = ok (default d (l !! Z.to_nat i)).
Proof.
  intros Hi. unfold py.index.
  rewrite (bool_decide_false (i < 0)) by lia.
  rewrite bool_decide_true by lia.
  destruct (lookup_lt_is_Some_2 l (Z.to_nat i)) as [x Hx]; [|by rewrite Hx].
  lia.
Qed.



(** ** The constructor of [table] *)













Section constructor_facts.
Context {S : Type} (e : casatools.table S).


End constructor_facts.



(** * Further properties *)

(** ** The normalizer, once and twice *)

Lemma map_agree_iff {A B} (f g : A → B) (l : list A) :
  map f l = map g l ↔ Forall (λ x, f x = g x) l.
Proof.
  induction l as [|x l IH]; simpl.
  - split; [constructor|done].
  - rewrite Forall_cons, <- IH. split.
    + by intros [= ??].
    + by intros [-> ->].
Qed.

(** The values on which a second pass of [recursive_transpose] changes
    nothing. *)
Theorem recursive_transpose_idempotent_iff (val : value) :
  recursive_transpose (recursive_transpose val) = recursive_transpose val
  ↔ settled val = true.
Proof.
  split; [|apply recursive_transpose_settled].
  induction val as [| | | |a|l IH|l IH|d IH| |] using value_ind;
    simpl; try done.
  - unfold turns_back.
    destruct (np.f_contiguous a) eqn:Hf; simpl; [|done].
    destruct (np.f_contiguous (np.T a)) eqn:Hft; simpl; [|done].
    rewrite T_involutive. intros [= Ha]. rewrite negb_true_iff, negb_false_iff.
    by apply bool_decide_eq_true.
  - intros [= Hl]. rewrite map_map in Hl. apply map_agree_iff in Hl.
    apply forallb_forall. intros x Hx%list_elem_of_In.
    rewrite Forall_forall in IH, Hl. by apply IH, Hl.
  - intros [= Hd]. rewrite map_map in Hd. apply map_agree_iff in Hd.
    apply forallb_forall. intros [k v] Hx%list_elem_of_In.
    rewrite Forall_forall in IH, Hd. apply (IH (k, v) Hx).
    specialize (Hd (k, v) Hx). simpl in Hd. by injection Hd.
Qed.

(** ** The class decorator *)

Section decorator.
Context {S : Type}.

Lemma mro_tail_fold_setattr (L : list (string * func S)) (cls : class S) :
  mro_tail (fold_left (λ c nm, setattr c nm.1 (MFunc (method_wrapper nm.2)))
                      L cls)
  = mro_tail cls.
Proof.
  revert cls. induction L as [|nm L IH]; intros cls; simpl; [done|].
  by rewrite IH.
Qed.

(** [wrap_class_methods] puts one wrapper around every function that the
    class has, its own or inherited, and leaves what is no function and the
    tables of the base classes as they are; applied once more, it puts a
    second wrapper around each. *)
Theorem wrap_class_methods_members (cls : class S) :
  mro_tail (wrap_class_methods cls) = mro_tail cls
  ∧ ∀ name,
      getattr (wrap_class_methods cls) name
      = match getattr cls name with
        | Some (MFunc f) => Some (MFunc (method_wrapper f))
        | other => other
        end
      ∧ getattr (wrap_class_methods (wrap_class_methods cls)) name
        = match getattr cls name with
          | Some (MFunc f) =>
              Some (MFunc (method_wrapper (method_wrapper f)))
          | other => other
          end.
Proof.
  split; [apply mro_tail_fold_setattr|].
  intros name. rewrite !getattr_wrap_class_methods.
  by destruct (getattr cls name) as [[f|v]|].
Qed.

(** Where the engine's rows are settled, the two wrappers of
    [tablerow.get] do what one does. *)
Lemma tablerow_get_once (base : list (string * member S)) depth a w :
  (∀ self a w v, (super base "get" self a w).1 = ok v → settled v = true) →
  call (Datatypes.S depth) (tablerow.cls base) "get" a w
  = wrapped (tablerow.get base (call depth (tablerow.cls base)) a) w.
Proof.
  intros Hsettled. rewrite tablerow_get_wrapped_twice, !wrapped_run.
  unfold tablerow.get, bind, lift.
  destruct (one_param "rownr" a) as [?|rownr]; [done|].
  pose proof (Hsettled (call depth (tablerow.cls base)) (Args [rownr] []) w)
    as Hrow.
  destruct (super base "get" _ _ w) as [[?|v0] w0]; [done|].
  simpl. unfold rmap, rbind, ok.
  by rewrite (recursive_transpose_settled v0 (Hrow v0 eq_refl)).
Qed.

(** A row view handed out by [table.row]: where the engine's rows are
    settled, its [get] returns the engine's row, normalized once, although
    the method is wrapped twice. *)
Theorem table_row_get_settled (base : list (string * member S)) depth
    (self columnnames exclude : value) (row : obj S) (w w1 : world S)
    (a : args) (w' : world S) :
  (∀ self a w v, (super base "get" self a w).1 = ok v → settled v = true) →
  table_row base (Datatypes.S depth) self columnnames exclude w = (ok row, w1) →
  row "get" a w'
  = wrapped (tablerow.get base (call depth (tablerow.cls base)) a) w'.
Proof.
  intros Hsettled Hrow. unfold table_row, bind, ret in Hrow.
  destruct (call _ _ "__init__" _ w) as [[?|?] ?]; [done|].
  injection Hrow as <- <-. by apply tablerow_get_once.
Qed.

(** A column view handed out by [table.col] reads a settled cell as the
    table's own [getcell] does. *)
Theorem table_col_get_is_getcell (own base : list (string * member S))
    (f : func S) (depth depth' : nat) (columnname : string) (irow : value)
    (w : world S) :
  let table_ := call (Datatypes.S depth) (wrap_class_methods (Class own [base])) in
  alist_get "getcell" own = None →
  alist_get "getcell" base = Some (MFunc f) →
  (∀ self v, (f self (Args [VStr columnname; irow] []) w).1 = ok v →
             settled v = true) →
  table_col (Datatypes.S depth') table_ columnname "get" (Args [irow] []) w
  = table_ "getcell" (Args [VStr columnname; irow] []) w.
Proof.
  intros table_ Hown Hbase Hsettled. unfold table_col.
  rewrite tablecolumn_get_wrapped_twice. unfold table_.
  rewrite (call_wrap_class_methods depth _ "getcell" f).
  2:{ unfold getattr. simpl. by rewrite Hown, Hbase. }
  rewrite !wrapped_run.
  pose proof (Hsettled (call depth (wrap_class_methods (Class own [base]))))
    as Hcell.
  destruct (f _ _ w) as [[?|v] w']; [done|].
  simpl. unfold rmap, rbind, ok.
  by rewrite !(recursive_transpose_settled v (Hcell v eq_refl)).
Qed.

(** A key that is neither a slice nor an integer: both views answer [None]
    and ask the engine nothing. *)
Theorem getitem_other_key (base : list (string * member S))
    (_table : obj S) (columnname : string) (depth : nat) (key : value)
    (w : world S) :
  match key with
  | VSlice _ _ _ | VInt _ | VBool _ => False
  | _ => True
  end →
  call (Datatypes.S depth) (tablerow.cls base) "__getitem__"
       (Args [key] []) w = (ok VNone, w)
  ∧ call (Datatypes.S depth) (tablecolumn.cls _table columnname)
         "__getitem__" (Args [key] []) w = (ok VNone, w).
Proof.
  intros Hkey. split.
  - unfold tablerow.cls.
    rewrite (call_wrap_class_methods _ _ "__getitem__" tablerow.__getitem__)
      by done.
    by destruct key.
  - unfold tablecolumn.cls.
    rewrite (call_wrap_class_methods _ _ "__getitem__"
               (tablecolumn.__getitem__ _table)) by done.
    by destruct key.
Qed.

End decorator.

Lemma table_row_get_settled_witness :
  call 2 (tablerow.cls examples.settled_rows_base) "get" (Args [VInt 0] [])
       examples.nowhere
  = (ok (VDict [("DATA", VArr (np.T examples.fortran_2x3))]),
     examples.nowhere).
Proof.
  rewrite (table_row_get_settled examples.settled_rows_base 1 (VObj 0)
             (VList []) (VBool false)
             (call 2 (tablerow.cls examples.settled_rows_base))
             examples.nowhere examples.nowhere);
    [reflexivity| |reflexivity].
  intros self a w v. unfold super. simpl. by intros [= <-].
Defined.

Lemma table_col_get_is_getcell_witness :
  table_col 2
    (call 2 (wrap_class_methods (Class [] [examples.settled_cells_base])))
    "DATA" "get" (Args [VInt 0] []) examples.nowhere
  = (ok (VArr (np.T examples.fortran_2x3)), examples.nowhere).
Proof.
  rewrite (table_col_get_is_getcell [] examples.settled_cells_base
             (λ _ _, ret (VArr examples.fortran_2x3)) 1 1 "DATA" (VInt 0)
             examples.nowhere);
    [reflexivity|reflexivity|reflexivity|].
  intros self v. simpl. by intros [= <-].
Defined.

Lemma getitem_other_key_witness :
  call 1 (tablerow.cls examples.rows_base) "__getitem__"
       (Args [VStr "DATA"] []) examples.nowhere
  = (ok VNone, examples.nowhere)
  ∧ call 1 (tablecolumn.cls examples.table_of_cells "DATA") "__getitem__"
         (Args [VStr "DATA"] []) examples.nowhere
    = (ok VNone, examples.nowhere).
Proof.
  exact (getitem_other_key examples.rows_base examples.table_of_cells "DATA"
           0 (VStr "DATA") examples.nowhere I).
Defined.

(** ** Slices *)

Lemma clamp_range (length lower upper bound : Z) :
  lower ≤ upper → lower ≤ 0 → upper ≤ length → length ≤ upper + 1 →
  lower ≤ (if bool_decide (bound < 0)
           then Z.max (bound + length) lower
           else Z.min bound upper) ≤ upper.
Proof. intros. case_bool_decide; lia. Qed.

(** The rows that a slice fetches: every one is a row of the view, and none
    comes twice.  (An integer index, in contrast, goes to [get] as it is.) *)
Theorem slice_rows_in_bounds (start stop step : option Z) (n : Z)
    (t : Z * Z * Z) :
  py.slice_indices start stop step n = ok t →
  Forall (λ irow, 0 ≤ irow < n) (range_of t) ∧ NoDup (range_of t).
Proof.
  unfold py.slice_indices, range_of, py.range.
  set (step' := default 1 step).
  case_bool_decide as Hstep; [done|].
  case_bool_decide as Hn; [done|].
  set (lower := if bool_decide (step' < 0) then -1 else 0).
  set (upper := if bool_decide (step' < 0) then n - 1 else n).
  assert (lower ≤ upper ∧ lower ≤ 0 ∧ upper ≤ n ∧ n ≤ upper + 1
          ∧ (0 < step' → lower = 0) ∧ (step' < 0 → upper = n - 1)
          ∧ -1 ≤ lower)
    as (Hlu & Hl0 & Hun & Hnu & Hpos & Hneg & Hl1).
  { unfold lower, upper. case_bool_decide; lia. }
  intros [= <-]. simpl.
  set (start' := match start with
                 | Some b => if bool_decide (b < 0)
                             then Z.max (b + n) lower else Z.min b upper
                 | None => if bool_decide (step' < 0) then upper else lower
                 end).
  set (stop' := match stop with
                | Some b => if bool_decide (b < 0)
                            then Z.max (b + n) lower else Z.min b upper
                | None => if bool_decide (step' < 0) then lower else upper
                end).
  assert (lower ≤ start' ≤ upper) as Hstart.
  { unfold start'. destruct start as [b|]; [by apply clamp_range|].
    case_bool_decide; lia. }
  assert (lower ≤ stop' ≤ upper) as Hstop.
  { unfold stop'. destruct stop as [b|]; [by apply clamp_range|].
    case_bool_decide; lia. }
  clearbody start' stop' lower upper. split.
  - apply Forall_forall. intros irow (i & -> & Hi%elem_of_seqZ)%list_elem_of_fmap.
    revert Hi. case_bool_decide as Hdir.
    + case_bool_decide; [|lia]. intros Hi.
      pose proof (Z.mul_div_le (stop' - start' + step' - 1) step' Hdir).
      specialize (Hpos Hdir).
      assert (0 ≤ i * step' ≤ stop' - start' - 1) by nia. lia.
    + assert (step' < 0) as Hdown by lia.
      case_bool_decide; [|lia]. intros Hi.
      pose proof (Z.mul_div_le (start' - stop' - step' - 1) (- step')
                    ltac:(lia)).
      specialize (Hneg Hdown).
      assert (0 ≤ i * (- step') ≤ start' - stop' - 1) by nia. lia.
  - apply NoDup_fmap_2; [|apply NoDup_seqZ].
    intros i j Hij. nia.
Qed.

Lemma slice_rows_in_bounds_witness :
  Forall (λ irow, 0 ≤ irow < 5) (range_of (4, -1, -2))
  ∧ NoDup (range_of (4, -1, -2)).
Proof.
  apply (slice_rows_in_bounds None None (Some (-2)) 5 (4, -1, -2)).
  reflexivity.
Defined.

(** ** More of the table facade *)

(** Reversing a shape text twice gives the shape back, written as Python
    writes a list. *)
Theorem reversed_shape_text_twice (text : string) (shape : list Z) :
  py.literal_eval text = Some shape →
  rbind (table.reversed_shape_text text) table.reversed_shape_text
  = ok (py.str_int_list shape).
Proof.
  intros Htext. unfold table.reversed_shape_text at 1. rewrite Htext. simpl.
  unfold table.reversed_shape_text.
  by rewrite literal_eval_str_int_list, reverse_involutive.
Qed.

Lemma reversed_shape_text_twice_witness :
  rbind (table.reversed_shape_text "[5,10]") table.reversed_shape_text
  = ok "[5, 10]".
Proof.
  apply (reversed_shape_text_twice "[5,10]" [5; 10]). reflexivity.
Defined.

Section open_table.
Context {S : Type} (e : casatools.table S).

(** A table that is open is queried in place: the command, with the table's
    own name for the placeholders, goes to the table itself, and no copy is
    made, nothing is closed and nothing is removed. *)
Theorem taql_open_in_place (self : value) (taqlcommand : string)
    (w w1 : world S) (n n' : string) :
  (∀ o w0, (casatools.name e o w0).2 = w0) →
  casatools.name e self w = (ok n, w) →
  casatools.isopened e self n w = (ok true, w1) →
  casatools.name e self w1 = (ok n', w1) →
  table.taql e self taqlcommand w
  = wrapped
      (do swig <- casatools.swig_taql e self
                    (py.replace "$gtable" n'
                       (py.replace "$mtable" n' taqlcommand));
       do tb_query_to <- table._wrap_table e swig;
       do _ <- casatools.name e tb_query_to;
       ret tb_query_to)%M w1.
Proof.
  intros Hname H1 H2 H3.
  unfold table.taql, table.taql_def, wrapped, bind, ret.
  unfold ok, raise in *.
  rewrite H1. cbn beta iota. rewrite H2. cbn beta iota. cbn [negb].
  cbn beta iota. rewrite H3. cbn beta iota. cbn [fst snd].
  rewrite H3. cbn beta iota.
  destruct (casatools.swig_taql e self _ w1) as [[?|swig] w2]; [done|].
  destruct (table._wrap_table e swig w2) as [[?|t] w3]; [done|].
  by destruct (casatools.name e t w3) as [[?|?] w4].
Qed.

End open_table.

Lemma taql_open_in_place_witness :
  table.taql examples.toy (VObj 0) "select from $mtable" examples.open_ms
  = (ok (VObj 2),
     World ["my.ms"]
       (examples.Toy ["my.ms"; "query result"; "query result"] ["my.ms"])).
Proof.
  rewrite (taql_open_in_place examples.toy (VObj 0) "select from $mtable"
             examples.open_ms examples.open_ms "my.ms" "my.ms");
    reflexivity.
Defined.

(** ** Placeholders *)

Lemma free_of_app (c : ascii) (s1 s2 : string) :
  free_of c (s1 +:+ s2) = free_of c s1 && free_of c s2.
Proof.
  induction s1 as [|c' s1 IH]; [done|]. rewrite string_app_cons. simpl.
  rewrite IH. by destruct (negb _).
Qed.

Lemma prefix_other_head (c0 c : ascii) (old s : string) :
  c ≠ c0 → String.prefix (String c0 old) (String c s) = false.
Proof. intros Hc. simpl. by destruct (Ascii.ascii_dec c0 c) as [->|]. Qed.

Lemma prefix_app_self (old post : string) :
  String.prefix old (old +:+ post) = true.
Proof.
  induction old as [|c old IH]; [by destruct post|].
  rewrite string_app_cons. simpl. by destruct (Ascii.ascii_dec c c).
Qed.

Lemma replace_from_skip (old new s1 s2 : string) :
  py.replace_from (String.length s1) old new (s1 +:+ s2)
  = py.replace_from 0 old new s2.
Proof.
  induction s1 as [|c s1 IH]; [done|]. rewrite string_app_cons. simpl.
  apply IH.
Qed.

(** Text without the first character of [old] goes through as it is. *)
Lemma replace_free (c0 : ascii) (old new pre rest : string) :
  free_of c0 pre = true →
  py.replace (String c0 old) new (pre +:+ rest)
  = pre +:+ py.replace (String c0 old) new rest.
Proof.
  unfold py.replace. induction pre as [|c pre IH]; [done|].
  rewrite string_app_cons. simpl free_of. intros [Hc Hpre]%andb_true_iff.
  apply negb_true_iff, bool_decide_eq_false in Hc.
  change (py.replace_from 0 (String c0 old) new (String c (pre +:+ rest)))
    with (if String.prefix (String c0 old) (String c (pre +:+ rest))
          then new +:+ py.replace_from (String.length (String c0 old) - 1)
                         (String c0 old) new (pre +:+ rest)
          else String c (py.replace_from 0 (String c0 old) new (pre +:+ rest))).
  rewrite prefix_other_head by done. by rewrite IH.
Qed.

Lemma replace_match (c0 : ascii) (old new post : string) :
  py.replace (String c0 old) new (String c0 old +:+ post)
  = new +:+ py.replace (String c0 old) new post.
Proof.
  unfold py.replace. rewrite string_app_cons.
  change (py.replace_from 0 (String c0 old) new (String c0 (old +:+ post)))
    with (if String.prefix (String c0 old) (String c0 (old +:+ post))
          then new +:+ py.replace_from (String.length (String c0 old) - 1)
                         (String c0 old) new (old +:+ post)
          else String c0 (py.replace_from 0 (String c0 old) new (old +:+ post))).
  rewrite <- string_app_cons, prefix_app_self. f_equal.
  replace (String.length (String c0 old) - 1)%nat with (String.length old)
    by (simpl; lia).
  apply replace_from_skip.
Qed.

Lemma replace_nothing (c0 : ascii) (old new s : string) :
  free_of c0 s = true → py.replace (String c0 old) new s = s.
Proof.
  intros Hs. rewrite <- (string_app_nil_r s) at 1.
  rewrite replace_free by done. by rewrite string_app_nil_r.
Qed.

(** What [taql] does to the text of a command.  A text without a dollar
    sign reaches the engine as it is.  A text with one placeholder,
    [$mtable] or [$gtable], and no other dollar sign reaches it with the
    table name in the place of the placeholder, where the name has no dollar
    sign either. *)
Theorem taql_placeholders (tablename pre post : string) :
  free_of "$" pre = true → free_of "$" post = true →
  py.replace "$gtable" tablename (py.replace "$mtable" tablename (pre +:+ post))
  = pre +:+ post
  ∧ (free_of "$" tablename = true →
     py.replace "$gtable" tablename
       (py.replace "$mtable" tablename (pre +:+ "$mtable" +:+ post))
     = pre +:+ tablename +:+ post
     ∧ py.replace "$gtable" tablename
         (py.replace "$mtable" tablename (pre +:+ "$gtable" +:+ post))
       = pre +:+ tablename +:+ post).
Proof.
  intros Hpre Hpost.
  assert (free_of "$" (pre +:+ post) = true) as Hfree
    by (by rewrite free_of_app, Hpre, Hpost).
  split.
  { rewrite (replace_nothing "$" "mtable") by done.
    by apply replace_nothing. }
  intros Hname. split.
  - rewrite (replace_free "$" "mtable") by done.
    rewrite (replace_match "$" "mtable").
    rewrite (replace_nothing "$" "mtable" _ post) by done.
    apply replace_nothing.
    by rewrite !free_of_app, Hpre, Hname, Hpost.
  - rewrite (replace_free "$" "mtable") by done.
    assert (py.replace "$mtable" tablename ("$gtable" +:+ post)
            = "$gtable" +:+ post) as ->.
    { change ("$gtable" +:+ post)
        with (String "$" (String "g" ("table" +:+ post))).
      change (py.replace "$mtable" tablename
                (String "$" (String "g" ("table" +:+ post))))
        with (String "$" (py.replace "$mtable" tablename
                            (String "g" ("table" +:+ post)))).
      f_equal. apply replace_nothing.
      change (String "g" ("table" +:+ post)) with ("gtable" +:+ post).
      by rewrite free_of_app, Hpost. }
    rewrite (replace_free "$" "gtable") by done.
    rewrite (replace_match "$" "gtable").
    by rewrite (replace_nothing "$" "gtable" _ post).
Qed.

Lemma taql_placeholders_witness :
  py.replace "$gtable" "my.ms"
    (py.replace "$mtable" "my.ms" ("select from " +:+ "$mtable" +:+ " where A > 5"))
  = "select from " +:+ "my.ms" +:+ " where A > 5".
Proof.
  exact (proj1 (proj2 (taql_placeholders "my.ms" "select from "
                         " where A > 5" eq_refl eq_refl) eq_refl)).
Defined.

(** ** More of [image._flatten_multibeam] *)

Section loop_results.
Context {A B : Type} (body : B → A → result B).

(** A loop that ends without an exception has run every turn without one. *)
Lemma rfold_ok_each (l : list A) (acc r : B) (x : A) :
  rfold body acc l = ok r → x ∈ l → ∃ acc0 acc1, body acc0 x = ok acc1.
Proof.
  revert acc. induction l as [|y l IH]; intros acc Hr Hx.
  - by apply elem_of_nil in Hx.
  - simpl in Hr. destruct (body acc y) as [err|acc'] eqn:Hy; [done|].
    apply elem_of_cons in Hx as [->|Hx]; [by eauto|].
    by apply (IH acc').
Qed.


End loop_results.


(** The beams are flattened without an exception exactly when the nested
    record has a plane for every channel and every polarization; one plane
    that is missing makes the whole call fail. *)
Theorem flatten_loops_complete_iff (beams : dict) (nchan npol : Z) :
  (∃ flat, image.flatten_loops (VDict beams) (VInt nchan) (VInt npol) = ok flat)
  ↔ (∀ c p, 0 ≤ c < nchan → 0 ≤ p < npol →
       ∃ row plane, alist_get (image.star c) beams = Some row
                    ∧ image.getitem row (image.star p) = ok plane).
Proof.
  split.
  - intros [flat Hflat] c p Hc Hp. unfold image.flatten_loops in Hflat.
    simpl in Hflat.
    eapply (rfold_ok_each _ _ _ _ c) in Hflat as (acc0 & acc1 & Hturn);
      [|apply elem_of_seqZ; lia].
    simpl in Hturn.
    eapply (rfold_ok_each _ _ _ _ p) in Hturn as (acc2 & acc3 & Hturn);
      [|apply elem_of_seqZ; lia].
    simpl in Hturn.
    destruct (alist_get (image.star c) beams) as [row|]; [|done].
    simpl in Hturn.
    destruct (image.getitem row (image.star p)) as [err|plane] eqn:Hplane;
      [done|].
    by exists row, plane.
  - intros Hall.
    destruct (flatten_loops_ok beams nchan npol
      (λ c p, match alist_get (image.star c) beams with
              | Some row => match image.getitem row (image.star p) with
                            | inr plane => plane
                            | inl _ => VNone
                            end
              | None => VNone
              end)) as (flat & Hflat & _); [|by exists flat].
    intros c p Hc Hp. destruct (Hall c p Hc Hp) as (row & plane & Hrow & Hp').
    exists row. split; [done|]. by rewrite Hrow, Hp'.
Qed.



(** ** The pixels of an image *)

Section pixel_facts.
Context {S : Type} (e : casatools.pixels S).

(** The constructor of [image] returns only for an existing image: when it
    returns, its arguments bind with no [shape] given (or [shape=None]), the
    engine object was initialised and [open(imagename)] was called on it, and
    the world is the one these two calls leave.  A call with a [shape], which
    is meant to create an image, never returns: it reads the name [value],
    which nothing binds. *)
Theorem image_init_only_opens (self : value) (a : args) (v : value)
    (w w' : world S) :
  image.__init__ e self a w = (ok v, w') →
  v = VNone
  ∧ ∃ bound opened,
      bind_params image.init_params a = ok (bound, [])
      ∧ param bound "shape" = VNone
      ∧ (do _ <- casatools.image_init e self;
         casatools.open_ e self (param bound "imagename"))%M w
        = (ok opened, w').
Proof.
  unfold image.__init__, image.__init__def. rewrite !wrapped_run.
  unfold bind, lift.
  destruct (bind_params image.init_params a) as [err|[bound kwargs]] eqn:Hbind;
    [done|].
  cbn [fst snd]. case_bool_decide as Hkw; [|done]. subst kwargs.
  destruct (casatools.image_init e self w) as [[err|u] w1] eqn:Hinit; [done|].
  destruct (param bound "shape") eqn:Hshape; try done.
  rewrite wrapped_run.
  destruct (casatools.open_ e self (param bound "imagename") w1)
    as [[err|opened] w2] eqn:Hopen; [done|].
  simpl. intros [= <- <-]. split; [done|].
  by exists bound, opened.
Qed.

(** [getdata()] and [shape()] agree.  The engine hands the pixels out in
    column-major layout, first axis fastest, and counts the axes in that
    order.  The array [getdata()] returns is the transposed view, [shape()]
    is its shape, and the pixel the engine has at an index is at the
    reversed index. *)
Theorem getdata_agrees_with_shape (self : value) (chunk : np.ndarray)
    (w w1 w2 : world S) :
  casatools.getchunk e self (VList [VInt (-1)]) (VList [VInt (-1)])
    (VList [VInt 1]) w = (ok (VArr chunk), w1) →
  casatools.shape e self w1 = (ok (np.shape chunk), w2) →
  np.f_contiguous chunk = true →
  ∃ pixels,
    image.getdata e self VNone VNone VNone w = (ok (VArr pixels), w1)
    ∧ image.shape e self w1 = (ok (VList (map VInt (np.shape pixels))), w2)
    ∧ ∀ idx, np.item pixels (reverse idx) = np.item chunk idx.
Proof.
  intros Hchunk Hshape Hf. exists (np.T chunk). split_and!.
  - unfold image.getdata, image.getdata_def. rewrite wrapped_run. simpl.
    rewrite Hchunk. simpl. by rewrite Hf.
  - unfold image.shape, image.shape_def. rewrite wrapped_run.
    unfold bind, ret. rewrite Hshape. simpl. do 3 f_equal.
    induction (reverse (np.shape chunk)) as [|n l IH]; [done|].
    simpl. by rewrite IH.
  - apply item_T.
Qed.

End pixel_facts.

Lemma image_init_only_opens_witness :
  ∃ bound opened,
    bind_params image.init_params (Args [VStr "my.im"] []) = ok (bound, [])
    ∧ param bound "shape" = VNone
    ∧ (do _ <- casatools.image_init examples.pixels_2x3 (VObj 0);
       casatools.open_ examples.pixels_2x3 (VObj 0)
                       (param bound "imagename"))%M examples.no_image
      = (ok opened, World ["my.im"] (Some "my.im")).
Proof.
  apply (image_init_only_opens examples.pixels_2x3 (VObj 0)
           (Args [VStr "my.im"] []) VNone examples.no_image).
  reflexivity.
Defined.

Lemma getdata_agrees_with_shape_witness :
  ∃ pixels,
    image.getdata examples.pixels_2x3 (VObj 0) VNone VNone VNone
                  examples.no_image
    = (ok (VArr pixels), examples.no_image)
    ∧ image.shape examples.pixels_2x3 (VObj 0) examples.no_image
      = (ok (VList (map VInt (np.shape pixels))), examples.no_image)
    ∧ ∀ idx, np.item pixels (reverse idx) = np.item examples.fortran_2x3 idx.
Proof.
  apply (getdata_agrees_with_shape examples.pixels_2x3 (VObj 0)
           examples.fortran_2x3 examples.no_image examples.no_image
           examples.no_image); reflexivity.
Defined.

(** ** The axes of a coordinate system *)

Lemma names_in_strings (l : list string) : names_in (VList (map VStr l)) = l.
Proof.
  unfold names_in. induction l as [|s l IH]; [done|]. csimpl. by f_equal.
Qed.

Lemma reverse_concat {A} (ls : list (list A)) :
  reverse (concat ls) = concat (map reverse (reverse ls)).
Proof.
  induction ls as [|l ls IH]; [done|]. simpl.
  rewrite reverse_app, reverse_cons, map_app, concat_app, IH. simpl.
  by rewrite app_nil_r.
Qed.

Lemma map_lookup_seqZ {A} (l : list A) (d : A) :
  map (λ idx, default d (l !! Z.to_nat idx)) (seqZ 0 (Z.of_nat (length l))) = l.
Proof.
  apply list_eq. intros i. rewrite list_lookup_fmap.
  destruct (decide (i < length l)%nat) as [Hi|Hi].
  - rewrite lookup_seqZ_lt by lia. simpl.
    replace (Z.to_nat (0 + Z.of_nat i)) with i by lia.
    destruct (lookup_lt_is_Some_2 l i Hi) as [x Hx]. by rewrite Hx.
  - rewrite lookup_seqZ_ge by lia. simpl. symmetry.
    apply lookup_ge_None. lia.
Qed.

Lemma Forall_concat_each {A} (P : A → Prop) (ls : list (list A)) :
  Forall P (concat ls) → Forall (Forall P) ls.
Proof.
  induction ls as [|l ls IH]; simpl; [by constructor|].
  intros [Hl Hls]%Forall_app. constructor; [done|]. by apply IH.
Qed.

Lemma Forall2_with_r {A B} (P : A → B → Prop) (Q : B → Prop) l k :
  Forall2 P l k → Forall Q k → Forall2 (λ x y, P x y ∧ Q y) l k.
Proof.
  induction 1 as [|x y l k Hxy _ IH]; [constructor|].
  intros [Hy Hk]%Forall_cons. constructor; [done|]. by apply IH.
Qed.

Section axis_order.
Context (_cs : casatools.coordsys).

Local Abbreviation axis_names := (casatools.names _cs).
Local Abbreviation name_at :=
  (λ idx : Z, default "" (casatools.names _cs !! Z.to_nat idx)).

(** The entry of one coordinate type whose axes are named. *)
Lemma axes_entry_names (axis_type : string) (block : list Z) :
  casatools.findcoordinate_pixel _cs axis_type = Some block →
  Forall (λ idx, 0 ≤ idx < Z.of_nat (length axis_names)) block →
  (axis_type = "spectral" → length block = 1%nat) →
  ∃ entry, coordinatesystem.axes_entry _cs axis_names axis_type = ok entry
           ∧ names_in entry = map name_at (reverse block).
Proof.
  intros Hpix Hrange Hone. unfold coordinatesystem.axes_entry.
  rewrite Hpix. simpl.
  rewrite (rmapM_ok _ name_at).
  2:{ apply Forall_reverse. eapply Forall_impl; [exact Hrange|].
      intros idx Hidx. by apply index_in_range. }
  simpl. case_bool_decide as Hspec.
  - destruct block as [|idx [|]]; try (by specialize (Hone Hspec)).
    simpl. eexists. split; [reflexivity|done].
  - eexists. split; [reflexivity|]. apply names_in_strings.
Qed.

Lemma rmapM_axes_entry (types : list string) (blocks : list (list Z)) :
  Forall2 (λ t block,
             casatools.findcoordinate_pixel _cs t = Some block
             ∧ Forall (λ idx, 0 ≤ idx < Z.of_nat (length axis_names)) block
             ∧ (t = "spectral" → length block = 1%nat))
          types blocks →
  ∃ axes, rmapM (coordinatesystem.axes_entry _cs axis_names) types = ok axes
          ∧ concat (map names_in axes)
            = concat (map (λ block, map name_at (reverse block)) blocks).
Proof.
  induction 1 as [|t block types blocks (Hpix & Hrange & Hone) _ IH].
  { by exists []. }
  destruct IH as (axes & Haxes & Hflat).
  destruct (axes_entry_names t block Hpix Hrange Hone) as (entry & He & Hn).
  exists (entry :: axes). simpl. rewrite He, Haxes. simpl.
  split; [done|]. by rewrite Hn, Hflat.
Qed.

(** [get_axes] lists the axes in the order of the other getters.  In a
    coordinate system whose coordinate types own consecutive runs of the
    axes, in the order of the types, the spectral type one axis, the entries
    of [get_axes], read one after the other, are the axis names in reversed
    axis order.  This is the order of [get_unit], [get_referencepixel],
    [get_referencevalue] and [get_increment]: position for position they
    pair a name with the number or the unit of the same axis. *)
Theorem get_axes_in_axis_order (blocks : list (list Z)) :
  Forall2 (λ t block,
             casatools.findcoordinate_pixel _cs (py.lower t) = Some block
             ∧ (py.lower t = "spectral" → length block = 1%nat))
          (casatools.coordinatetype _cs) blocks →
  concat blocks = seqZ 0 (Z.of_nat (length axis_names)) →
  ∃ axes,
    coordinatesystem.get_axes _cs = ok axes
    ∧ concat (map names_in axes) = reverse axis_names
    ∧ ∀ (A : Type) (ax : casatools.axes A),
        (length (casatools.units ax) = length axis_names →
         zip (concat (map names_in axes)) (coordinatesystem.get_unit ax)
         = reverse (zip axis_names (casatools.units ax)))
        ∧ (length (casatools.referencepixel_numeric ax) = length axis_names →
           zip (concat (map names_in axes))
               (coordinatesystem.get_referencepixel ax)
           = reverse (zip axis_names (casatools.referencepixel_numeric ax)))
        ∧ (length (casatools.referencevalue_numeric ax) = length axis_names →
           zip (concat (map names_in axes))
               (coordinatesystem.get_referencevalue ax)
           = reverse (zip axis_names (casatools.referencevalue_numeric ax)))
        ∧ (length (casatools.increment_numeric ax) = length axis_names →
           zip (concat (map names_in axes))
               (coordinatesystem.get_increment ax)
           = reverse (zip axis_names (casatools.increment_numeric ax))).
Proof.
  intros Htypes Hruns.
  destruct (rmapM_axes_entry
              (map py.lower (reverse (casatools.coordinatetype _cs)))
              (reverse blocks)) as (axes & Haxes & Hflat).
  { change (map py.lower (reverse (casatools.coordinatetype _cs)))
      with (py.lower <$> reverse (casatools.coordinatetype _cs)).
    rewrite fmap_reverse. apply Forall2_reverse.
    apply Forall2_fmap_l.
    assert (Forall (Forall (λ idx, 0 ≤ idx < Z.of_nat (length axis_names)))
                   blocks) as Hrange.
    { apply Forall_concat_each. rewrite Hruns. apply Forall_forall.
      intros idx Hidx%elem_of_seqZ. lia. }
    pose proof (Forall2_with_r _ _ _ _ Htypes Hrange) as Hboth.
    eapply Forall2_impl; [exact Hboth|].
    simpl. by intros t block [[Hpix Hone] Hin]. }
  assert (concat (map names_in axes) = reverse axis_names) as Hnames.
  { rewrite Hflat.
    transitivity (reverse (name_at <$> concat blocks)).
    2:{ rewrite Hruns. f_equal. apply (map_lookup_seqZ axis_names ""). }
    rewrite <- fmap_reverse, reverse_concat.
    generalize (reverse blocks). intros ls.
    induction ls as [|l ls IH]; [done|]. simpl.
    rewrite fmap_app. by f_equal. }
  exists axes. split_and!.
  - unfold coordinatesystem.get_axes. rewrite rfold_append.
    unfold coordinatesystem.get_names. by rewrite Haxes.
  - done.
  - intros A ax. rewrite Hnames.
    unfold coordinatesystem.get_unit, coordinatesystem.get_referencepixel,
      coordinatesystem.get_referencevalue, coordinatesystem.get_increment.
    split_and!; intros Hlen; by apply zip_with_reverse.
Qed.

End axis_order.

Lemma get_axes_in_axis_order_witness :
  ∃ axes,
    coordinatesystem.get_axes examples.cube = ok axes
    ∧ concat (map names_in axes)
      = ["Frequency"; "Stokes"; "Declination"; "Right Ascension"]
    ∧ zip (concat (map names_in axes))
          (coordinatesystem.get_unit examples.cube_axes)
      = [("Frequency", "Hz"); ("Stokes", ""); ("Declination", "rad");
         ("Right Ascension", "rad")].
Proof.
  destruct (get_axes_in_axis_order examples.cube [[0; 1]; [2]; [3]])
    as (axes & Haxes & Hnames & Hunits).
  - repeat constructor; done.
  - reflexivity.
  - exists axes. split_and!; [done..|].
    apply (proj1 (Hunits Z examples.cube_axes)). reflexivity.
Defined.
